(** * Text preprocessing pipeline of [preprocess/preprocess.py]

    A shallow embedding of the [TextPreprocessor] class: Python strings are
    sequences of Unicode code points, every [re.sub] call is the scanning
    loop of the [re] module driven by a matcher for its pattern, and the
    stages are composed as [preprocess_text] composes them.  The verbose
    statistics only print; they never change the text and are left out of
    the functions on text.  Module [Run] has the methods as they run, with
    what they print and the exception printing can raise.
    "Step n" is the numbering of the docstrings of the methods. *)

From Stdlib Require Import String Ascii DecimalString.
From Stdlib Require Import List NArith ZArith Lia Bool.
Import ListNotations.

Local Open Scope N_scope.

#[global] Arguments N.eqb : simpl never.
#[global] Arguments N.leb : simpl never.
#[global] Arguments N.ltb : simpl never.

(** ** Strings *)

(** A Python [str]: a list of code points. *)
Definition str := list N.

(** The code points of an ASCII literal. *)
Fixpoint lit (s : string) : str :=
  match s with
  | EmptyString => []
  | String a s' => N_of_ascii a :: lit s'
  end.

Definition TAB : N := 9.
Definition NL : N := 10.
Definition CR : N := 13.
Definition SP : N := 32.
Definition DOT : N := 46.
Definition COMMA : N := 44.
Definition DQUOTE : N := 34.
Definition SQUOTE : N := 39.
Definition HYPHEN : N := 45.

Definition in_range (lo hi c : N) : bool := (lo <=? c) && (c <=? hi).

Fixpoint str_eqb (a b : str) : bool :=
  match a, b with
  | [], [] => true
  | x :: a', y :: b' => (x =? y) && str_eqb a' b'
  | _, _ => false
  end.

(** [s.startswith(p)] *)
Fixpoint starts_with (p s : str) : bool :=
  match p, s with
  | [], _ => true
  | x :: p', y :: s' => (x =? y) && starts_with p' s'
  | _ :: _, [] => false
  end.

(** The longest prefix whose characters all satisfy [p], and what follows. *)
Fixpoint take_while (p : N -> bool) (s : str) : str :=
  match s with
  | [] => []
  | c :: s' => if p c then c :: take_while p s' else []
  end.

Fixpoint drop_while (p : N -> bool) (s : str) : str :=
  match s with
  | [] => []
  | c :: s' => if p c then drop_while p s' else s
  end.

(** ** Character classes *)

(** [Py_UNICODE_ISSPACE]: what [\s] matches in a [str] pattern and what
    [str.strip()] removes. *)
Definition isspace (c : N) : bool :=
  in_range 0x09 0x0D c || in_range 0x1C 0x20 c || (c =? 0x85) || (c =? 0xA0)
  || (c =? 0x1680) || in_range 0x2000 0x200A c || (c =? 0x2028)
  || (c =? 0x2029) || (c =? 0x202F) || (c =? 0x205F) || (c =? 0x3000).

Definition is_ascii_digit (c : N) : bool := in_range 48 57 c.
Definition is_upper (c : N) : bool := in_range 65 90 c.   (* [A-Z] *)
Definition is_lower (c : N) : bool := in_range 97 122 c.  (* [a-z] *)
Definition is_ascii_word (c : N) : bool :=
  is_ascii_digit c || is_upper c || is_lower c || (c =? 95).

(** [ \t] *)
Definition is_blank (c : N) : bool := (c =? SP) || (c =? TAB).
Definition is_nl (c : N) : bool := c =? NL.
Definition is_sp (c : N) : bool := c =? SP.

(** [.!?:;] *)
Definition is_sentence_end (c : N) : bool :=
  (c =? 46) || (c =? 33) || (c =? 63) || (c =? 58) || (c =? 59).

(** [\x00-\x08\x0B\x0C\x0E-\x1F\x7F-\x9F] *)
Definition is_control (c : N) : bool :=
  in_range 0x00 0x08 c || (c =? 0x0B) || (c =? 0x0C) || in_range 0x0E 0x1F c
  || in_range 0x7F 0x9F c.

(** ** str methods *)

Definition lstrip (s : str) : str := drop_while isspace s.
Definition rstrip (s : str) : str := rev (drop_while isspace (rev s)).
(** [s.strip()] *)
Definition strip (s : str) : str := rstrip (lstrip s).

(** [s.split('\n')]: one more piece than there are newlines. *)
Fixpoint split_nl (s : str) : list str :=
  match s with
  | [] => [[]]
  | c :: s' =>
      if c =? NL then [] :: split_nl s'
      else match split_nl s' with
           | l :: ls => (c :: l) :: ls
           | [] => [[c]]
           end
  end.

(** ['\n'.join(lines)] *)
Fixpoint join_nl (ls : list str) : str :=
  match ls with
  | [] => []
  | [l] => l
  | l :: ls' => l ++ NL :: join_nl ls'
  end.

(** ** re.sub *)

(** A matcher is a pattern tried at one position: it sees the character
    before the position (for [\b]) and the rest of the text, and answers
    with the length of the match and the expanded replacement.  No pattern
    of the program matches the empty string. *)
Definition matcher := option N -> str -> option (nat * str).

(** The scan of [re.sub]: at each position try the pattern; on a match emit
    the replacement and resume after the match, otherwise copy one
    character.  [skip] counts the characters of the current match that are
    still to be stepped over. *)
Fixpoint sub_from (m : matcher) (skip : nat) (prev : option N) (s : str) : str :=
  match s with
  | [] => []
  | c :: s' =>
      match skip with
      | S k => sub_from m k (Some c) s'
      | O =>
          match m prev s with
          | Some (len, rep) => rep ++ sub_from m (Nat.pred len) (Some c) s'
          | None => c :: sub_from m 0 (Some c) s'
          end
      end
  end.

Definition re_sub (m : matcher) (s : str) : str := sub_from m 0 None s.

(** [[class]] -> [rep] *)
Definition m_class (p : N -> bool) (rep : str) : matcher :=
  fun _ s =>
    match s with
    | c :: _ => if p c then Some (1%nat, rep) else None
    | [] => None
    end.

(** [[class]{k,}] -> [rep], greedy; [k >= 1]. *)
Definition m_run (k : nat) (p : N -> bool) (rep : str) : matcher :=
  fun _ s =>
    let n := length (take_while p s) in
    if (Nat.leb k n) then Some (n, rep) else None.

(** [\r\n|\r] -> [\n] *)
Definition m_line_ending : matcher :=
  fun _ s =>
    match s with
    | c :: s' =>
        if c =? CR then
          match s' with
          | d :: _ => if d =? NL then Some (2%nat, [NL]) else Some (1%nat, [NL])
          | [] => Some (1%nat, [NL])
          end
        else None
    | [] => None
    end.

(** [[ \t]+$] with [re.MULTILINE] -> empty: a run of blanks is matched only
    when the whole run ends at the end of the text or before a newline. *)
Definition m_trailing_blanks : matcher :=
  fun _ s =>
    let n := length (take_while is_blank s) in
    if Nat.leb 1 n then
      match drop_while is_blank s with
      | [] => Some (n, [])
      | c :: _ => if c =? NL then Some (n, []) else None
      end
    else None.

(** [([.!?:;])\s+] -> [\1\n] *)
Definition m_sentence_break : matcher :=
  fun _ s =>
    match s with
    | c :: s' =>
        if is_sentence_end c then
          let n := length (take_while isspace s') in
          if Nat.leb 1 n then Some (S n, [c; NL]) else None
        else None
    | [] => None
    end.

(** [(\d)\n(\d)] -> [\1.\2] *)
Definition m_decimal (isdecimal : N -> bool) : matcher :=
  fun _ s =>
    match s with
    | a :: n :: b :: _ =>
        if isdecimal a && (n =? NL) && isdecimal b
        then Some (3%nat, [a; DOT; b]) else None
    | _ => None
    end.

(** [ +\n] -> [\n] *)
Definition m_spaces_nl : matcher :=
  fun _ s =>
    let n := length (take_while is_sp s) in
    if Nat.leb 1 n then
      match drop_while is_sp s with
      | c :: _ => if c =? NL then Some (S n, [NL]) else None
      | [] => None
      end
    else None.

(** [\n([A-Z][a-z]+ \d+,)] -> [\n\n\1].  Neither greedy run can give
    characters back: what follows [[a-z]+] must be a space and what follows
    [\d+] a comma, and neither is in the class of its run. *)
Definition m_paragraph_marker (isdecimal : N -> bool) : matcher :=
  fun _ s =>
    match s with
    | n :: u :: s2 =>
        if (n =? NL) && is_upper u then
          let a := length (take_while is_lower s2) in
          if Nat.leb 1 a then
            match drop_while is_lower s2 with
            | sp :: s4 =>
                if sp =? SP then
                  let d := length (take_while isdecimal s4) in
                  if Nat.leb 1 d then
                    match drop_while isdecimal s4 with
                    | cm :: _ =>
                        if cm =? COMMA
                        then Some ((a + d + 4)%nat,
                                   NL :: NL :: firstn (a + d + 3) (u :: s2))
                        else None
                    | [] => None
                    end
                  else None
                else None
            | [] => None
            end
          else None
        else None
    | _ => None
    end.

(** [\b]: the characters on the two sides differ in being word characters;
    outside the text counts as a non-word character. *)
Definition word_boundary (isword : N -> bool) (prev : option N) (s : str) : bool :=
  let before := match prev with Some c => isword c | None => false end in
  let after := match s with c :: _ => isword c | [] => false end in
  negb (Bool.eqb before after).

(** Mr|Mrs|Dr|Ms|Prof|vs|etc|i\.e|e\.g, in the order of the pattern. *)
Definition abbreviations : list str :=
  [lit "Mr"; lit "Mrs"; lit "Dr"; lit "Ms"; lit "Prof"; lit "vs"; lit "etc";
   lit "i.e"; lit "e.g"].

(** The first alternative [a] for which [a] followed by a newline is at the
    head of the text. *)
Fixpoint first_alternative (alts : list str) (s : str) : option str :=
  match alts with
  | [] => None
  | a :: alts' =>
      if starts_with (a ++ [NL]) s then Some a else first_alternative alts' s
  end.

(** [\b(Mr|Mrs|Dr|Ms|Prof|vs|etc|i\.e|e\.g)\n] -> [\1. ] *)
Definition m_abbreviation (isword : N -> bool) : matcher :=
  fun prev s =>
    if word_boundary isword prev s then
      match first_alternative abbreviations s with
      | Some a => Some (S (length a), a ++ [DOT; SP])
      | None => None
      end
    else None.

(** [text.replace(old, new)] for a non-empty [old]: the same scan with a
    literal pattern. *)
Definition m_literal (old new : str) : matcher :=
  fun _ s => if starts_with old s then Some (length old, new) else None.

Definition replace (old new : str) (s : str) : str := re_sub (m_literal old new) s.

(** A character class given by its members. *)
Definition in_class (members : list N) (c : N) : bool := existsb (N.eqb c) members.

(** ** The preprocessor *)

(** The fields [__init__] stores. *)
Record TextPreprocessor := {
  preserve_paragraphs : bool;
  min_line_length : Z;
  verbose : bool
}.

(** Step 3: [re.sub(r'[\x00-\x08\x0B\x0C\x0E-\x1F\x7F-\x9F]', '', text)] *)
Definition remove_control_characters (text : str) : str :=
  re_sub (m_class is_control []) text.

(** Step 4 *)
Definition normalize_whitespace (text : str) : str :=
  let text := re_sub (m_run 1 is_blank [SP]) text in
  let text := re_sub m_line_ending text in
  re_sub m_trailing_blanks text.

(** Step 5 *)
Definition remove_excessive_newlines (self : TextPreprocessor) (text : str) : str :=
  if preserve_paragraphs self
  then re_sub (m_run 3 is_nl [NL; NL]) text
  else re_sub (m_run 2 is_nl [NL]) text.

(** Step 6: keep the lines that are non-empty once stripped and at least
    [min_line_length] long. *)
Definition keep_line (self : TextPreprocessor) (line : str) : bool :=
  match strip line with
  | [] => false
  | _ :: _ => (min_line_length self <=? Z.of_nat (length (strip line)))%Z
  end.

Definition remove_empty_lines (self : TextPreprocessor) (text : str) : str :=
  join_nl (filter (keep_line self) (split_nl text)).

(** Step 7.  The table as the dict display lists it, key after key. *)
Definition a_circ : N := 0xE2.   (* U+00E2 *)
Definition euro : N := 0x20AC.   (* U+20AC *)
Definition EM_DASH : N := 0x2014.
Definition EN_DASH : N := 0x2013.
Definition ELLIPSIS : N := 0x2026.

Definition replacements_display : list (str * str) :=
  [ ([a_circ; euro; 0x2122], [SQUOTE]);            (* Smart apostrophe *)
    ([a_circ; euro; 0x153], [DQUOTE]);             (* Smart quote open *)
    ([a_circ; euro], [DQUOTE]);                    (* Smart quote close *)
    ([a_circ; euro; DQUOTE], [EM_DASH]);           (* Em dash *)
    ([a_circ; euro; DQUOTE], [EN_DASH]);           (* En dash *)
    ([0xC2], []);                                  (* Non-breaking space artifacts *)
    ([a_circ; euro; 0xA6], [DOT; DOT; DOT]) ].     (* Ellipsis *)

(** [d[k] = v] on an insertion-ordered dict: a key already present keeps
    its place and takes the new value. *)
Fixpoint dict_set (k v : str) (d : list (str * str)) : list (str * str) :=
  match d with
  | [] => [(k, v)]
  | (k', v') :: d' =>
      if str_eqb k k' then (k', v) :: d' else (k', v') :: dict_set k v d'
  end.

(** The dict a display builds: its pairs are stored from left to right. *)
Definition dict_of_display (l : list (str * str)) : list (str * str) :=
  fold_left (fun d kv => dict_set (fst kv) (snd kv) d) l [].

Definition replacements : list (str * str) := dict_of_display replacements_display.

(** [for old, new in replacements.items(): text = text.replace(old, new)] *)
Definition fix_common_encoding_issues (text : str) : str :=
  fold_left (fun t kv => replace (fst kv) (snd kv) t) replacements text.

(** Step 8 *)
Definition clean_special_characters (text : str) : str :=
  let text := re_sub (m_class (in_class [DQUOTE; DQUOTE; DQUOTE]) [DQUOTE]) text in
  let text := re_sub (m_class (in_class [SQUOTE; SQUOTE; SQUOTE]) [SQUOTE]) text in
  let text := re_sub (m_class (in_class [EN_DASH; EM_DASH]) [HYPHEN]) text in
  replace [ELLIPSIS] [DOT; DOT; DOT] text.

Section Pipeline.

(** The Unicode character database is not part of the program: NFC
    normalisation and the classifications of the code points above ASCII
    are taken as given. *)
Variable nfc : str -> str.            (* unicodedata.normalize('NFC', .) *)
Variable decimal_table : N -> bool.   (* category Nd, above ASCII *)
Variable alnum_table : N -> bool.     (* str.isalnum, above ASCII *)

(** [\d] in a [str] pattern: a decimal digit of any script.  Among the
    ASCII characters these are [0-9]. *)
Definition isdecimal (c : N) : bool :=
  if c <? 128 then is_ascii_digit c else decimal_table c.

(** [\w] in a [str] pattern: alphanumeric or underscore.  Among the ASCII
    characters these are [a-zA-Z0-9_]. *)
Definition isword (c : N) : bool :=
  if c <? 128 then is_ascii_word c else alnum_table c.

(** Step 2 *)
Definition normalize_unicode (text : str) : str := nfc text.

(** Step 5.5 *)
Definition remove_mid_sentence_newlines (text : str) : str :=
  let text_no_newlines := re_sub (m_run 1 is_nl [SP]) text in
  let text_no_newlines := strip (re_sub (m_run 1 isspace [SP]) text_no_newlines) in
  let processed_text := re_sub m_sentence_break text_no_newlines in
  let processed_text := re_sub (m_abbreviation isword) processed_text in
  let processed_text := re_sub (m_decimal isdecimal) processed_text in
  let processed_text := re_sub m_spaces_nl processed_text in
  re_sub (m_paragraph_marker isdecimal) processed_text.

(** The pipeline, in the order [preprocess_text] applies the steps. *)
Definition preprocess_text (self : TextPreprocessor) (text : str) : str :=
  let text := normalize_unicode text in
  let text := remove_control_characters text in
  let text := fix_common_encoding_issues text in
  let text := clean_special_characters text in
  let text := normalize_whitespace text in
  let text := remove_excessive_newlines self text in
  let text := remove_mid_sentence_newlines text in
  let text := remove_empty_lines self text in
  strip text.

End Pipeline.

(** ** Inputs used in the statements below *)

Definition default_config : TextPreprocessor :=
  {| preserve_paragraphs := true; min_line_length := 3; verbose := true |}.

(** ["Patient presented with fever.\nTemperature was 38.5 C.\nDr. Smith examined the patient."] *)
Definition fever_note : str :=
  lit "Patient presented with fever." ++ [NL] ++ lit "Temperature was 38.5 C."
  ++ [NL] ++ lit "Dr. Smith examined the patient.".

(** The key the table lists for both dashes. *)
Definition dash_mojibake : str := [a_circ; euro; DQUOTE].

(** ** The control characters the description of Step 3 names *)

Definition DEL : N := 0x7F.
Definition is_c0 (c : N) : bool := in_range 0x00 0x1F c.
Definition is_c1 (c : N) : bool := in_range 0x80 0x9F c.

(** "All C0 control codes except \n, \r, \t, and all C1 control codes". *)
Definition c0_c1_removed (c : N) : bool :=
  (is_c0 c && negb (in_class [NL; CR; TAB] c)) || is_c1 c.

(** Code points on which NFC does nothing wherever they stand: those below
    U+0300, the first combining mark, and the two symbols U+20AC and U+2122
    that the encoding table mentions. *)
Definition nfc_inert (c : N) : bool := (c <? 0x300) || (c =? euro) || (c =? 0x2122).

Definition nfc_stable (nfc : str -> str) : Prop :=
  forall s, forallb nfc_inert s = true -> nfc s = s.

(** The closing-quote artifact wrapped around a stray U+00C2. *)
Definition split_apostrophe_mojibake : str := [a_circ; 0xC2; euro; 0x2122].

(** ** Shapes of text *)

Definition opt_test (p : N -> bool) (prev : option N) : bool :=
  match prev with Some c => p c | None => false end.

(** Every character stands in relation [R] to the one before it. *)
Fixpoint chain (R : option N -> N -> bool) (prev : option N) (s : str) : bool :=
  match s with
  | [] => true
  | c :: s' => R prev c && chain R (Some c) s'
  end.

(** The last character of [s], or [prev] when [s] is empty. *)
Fixpoint last_opt (prev : option N) (s : str) : option N :=
  match s with
  | [] => prev
  | c :: s' => last_opt (Some c) s'
  end.

Definition ends_nonspace (s : str) : bool := negb (opt_test isspace (last_opt None s)).

Definition starts_space (s : str) : bool :=
  match s with c :: _ => isspace c | [] => false end.

(** Whitespace is a single U+0020 that follows no whitespace. *)
Definition R_collapsed (prev : option N) (c : N) : bool :=
  if isspace c then (c =? SP) && negb (opt_test isspace prev) else true.

(** Whitespace is a single U+0020 between two other characters. *)
Definition R_tidy (prev : option N) (c : N) : bool :=
  if isspace c then (c =? SP) && opt_test (fun p => negb (isspace p)) prev else true.

Definition tidy (s : str) : bool := chain R_tidy None s && ends_nonspace s.

(** A newline follows a sentence end; any other whitespace is a single
    U+0020 after a character that is neither whitespace nor a sentence end. *)
Definition R_segmented (prev : option N) (c : N) : bool :=
  if c =? NL then opt_test is_sentence_end prev
  else if isspace c
       then (c =? SP)
            && opt_test (fun p => negb (isspace p) && negb (is_sentence_end p)) prev
       else true.

Definition segmented (s : str) : bool := chain R_segmented None s && ends_nonspace s.

(** [g] is [t] with some of its newlines doubled. *)
Inductive doubled : str -> str -> Prop :=
| doubled_nil : doubled [] []
| doubled_keep c t g : doubled t g -> doubled (c :: t) (c :: g)
| doubled_dup t g : doubled t g -> doubled (NL :: t) (NL :: NL :: g).

(** The text holds [k] newlines in a row. *)
Definition has_newline_run (k : nat) (s : str) : Prop :=
  exists u v, s = u ++ repeat NL k ++ v.

(** The text holds three blanks (space or tab) in a row. *)
Definition has_blank_run3 (s : str) : Prop :=
  exists u a b c v,
    s = u ++ a :: b :: c :: v /\ is_blank a = true /\ is_blank b = true /\ is_blank c = true.

(** The line ends in a space or a tab. *)
Definition trailing_blank (line : str) : bool := opt_test is_blank (last_opt None line).

Definition not_nl (c : N) : bool := negb (c =? NL).

Definition starts_nl (s : str) : bool :=
  match s with c :: _ => is_nl c | [] => false end.

(** No newline inside. *)
Definition no_nl (l : str) : bool := forallb (fun c => negb (c =? NL)) l.

Definition nonempty (l : str) : bool := match l with [] => false | _ :: _ => true end.

Definition ends_sentence (l : str) : bool := opt_test is_sentence_end (last_opt None l).

(** A line of segmented text. *)
Definition line_ok (l : str) : bool := segmented l && no_nl l && nonempty l.

(** Lines of segmented text: every line but the last ends a sentence. *)
Fixpoint lines_ok (ls : list str) : bool :=
  match ls with
  | [] => true
  | l :: ls' =>
      line_ok l && (match ls' with [] => true | _ :: _ => ends_sentence l end)
      && lines_ok ls'
  end.

(** Segmented text seen from the middle: [prev] is the character before. *)
Definition seg_from (prev : option N) (s : str) : bool :=
  chain R_segmented prev s && negb (opt_test isspace (last_opt prev s)).

(** What [\n+] -> space does to a single newline. *)
Definition unbreak (c : N) : N := if c =? NL then SP else c.

(** Not a control character. *)
Definition printable (c : N) : bool := negb (is_control c).

(** Neither a control character nor a dash or ellipsis that Step 8 rewrites. *)
Definition plain (c : N) : bool :=
  printable c && negb (in_class [EN_DASH; EM_DASH] c) && negb (c =? ELLIPSIS).

(** ** The statistics of the steps *)

(** [_print_step_stats]: "Lines removed". *)
Definition line_diff (original_text processed_text : str) : Z :=
  (Z.of_nat (length (split_nl original_text))
   - Z.of_nat (length (split_nl processed_text)))%Z.

(** Step 3: "Control characters removed",
    [len(original_text) - len(processed_text)]. *)
Definition control_chars_removed (text : str) : Z :=
  (Z.of_nat (length text) - Z.of_nat (length (remove_control_characters text)))%Z.

(** Step 6: "Empty/short lines removed",
    [original_line_count - len(filtered_lines)]. *)
Definition empty_lines_removed (self : TextPreprocessor) (text : str) : Z :=
  (Z.of_nat (length (split_nl text))
   - Z.of_nat (length (filter (keep_line self) (split_nl text))))%Z.

(** ** The report of [main] in [agents/agent.py] *)

(** [s.split(sep)] for a non-empty [sep]: the occurrences of [sep] are found
    from left to right and do not overlap.  [skip] counts the characters of
    the separator just found that are still to be stepped over. *)
Fixpoint split_from (sep : str) (skip : nat) (s : str) : list str :=
  match s with
  | [] => [[]]
  | c :: s' =>
      match skip with
      | S k => split_from sep k s'
      | O =>
          if starts_with sep s
          then [] :: split_from sep (Nat.pred (length sep)) s'
          else match split_from sep 0 s' with
               | l :: ls => (c :: l) :: ls
               | [] => [[c]]
               end
      end
  end.

Definition str_split (sep : str) (s : str) : list str := split_from sep 0 s.

(** "Total paragraphs":
    [len([p for p in processed_text.split(chr(10)*2) if p.strip()])] *)
Definition total_paragraphs (processed_text : str) : nat :=
  length (filter (fun p => nonempty (strip p)) (str_split (repeat NL 2) processed_text)).

(** ** Further shapes of text *)

(** What Step 8 does to one character. *)
Definition clean_char (c : N) : str :=
  if in_class [EN_DASH; EM_DASH] c then [HYPHEN]
  else if c =? ELLIPSIS then [DOT; DOT; DOT] else [c].

Definition not_dash (c : N) : bool := negb (in_class [EN_DASH; EM_DASH] c).

(** Neither of the two letters that every key of the table starts with. *)
Definition no_artifact_letter (c : N) : bool := negb (c =? a_circ) && negb (c =? 0xC2).

(** The table without the entry of the dashes. *)
Definition replacements_without_dash : list (str * str) :=
  filter (fun kv => negb (str_eqb (fst kv) dash_mojibake)) replacements.

(** No tab and no carriage return; a space follows no space, and no newline
    follows a space. *)
Definition R_whitespace (prev : option N) (c : N) : bool :=
  negb (c =? TAB) && negb (c =? CR)
  && negb (opt_test is_sp prev && ((c =? SP) || (c =? NL))).

(** Text as Step 4 leaves it: as above, and no space at the very end. *)
Definition whitespace_normal (s : str) : bool :=
  chain R_whitespace None s && negb (opt_test is_sp (last_opt None s)).

(** Every run of newlines is at most [k] long. *)
Fixpoint newline_runs_le (k : nat) (s : str) : bool :=
  match s with
  | [] => true
  | _ :: s' => Nat.leb (length (take_while is_nl s)) k && newline_runs_le k s'
  end.

(** A newline follows a sentence end or a newline; a space follows neither
    whitespace nor a sentence end. *)
Definition R_resegmented (prev : option N) (c : N) : bool :=
  if c =? NL then opt_test (fun p => is_sentence_end p || is_nl p) prev
  else R_segmented prev c.

Definition is_ascii (c : N) : bool := c <? 128.

(** No tab, and a space follows no space. *)
Definition R_single_spaces (prev : option N) (c : N) : bool :=
  negb (c =? TAB) && negb (opt_test is_sp prev && (c =? SP)).

(** As above, and no carriage return. *)
Definition R_unix_lines (prev : option N) (c : N) : bool :=
  R_single_spaces prev c && negb (c =? CR).

(** Text as Step 4 leaves it, seen from the middle. *)
Definition ws_from (prev : option N) (s : str) : bool :=
  chain R_whitespace prev s && negb (opt_test is_sp (last_opt prev s)).

Definition starts_blank (s : str) : bool :=
  match s with c :: _ => is_blank c | [] => false end.

(** Something other than a newline comes next. *)
Definition continues_line (s : str) : bool :=
  match s with c :: _ => negb (c =? NL) | [] => false end.

Definition nonspace (c : N) : bool := negb (isspace c).

(** The length of the run of newlines at the head. *)
Definition leading_newlines (s : str) : nat := length (take_while is_nl s).

(** The pair [a], [b] does not occur here. *)
Definition R_no_pair (a b : N) (prev : option N) (c : N) : bool :=
  negb (opt_test (fun p => p =? a) prev && (c =? b)).


(** ** Running the methods: standard output and exceptions *)

(** Besides computing the text, the methods print their statistics when
    [verbose] is set.  [print] is the one operation of the class that can
    fail on the values it is given: [sys.stdout] encodes what it is sent
    and raises [UnicodeEncodeError] at a character its encoding does not
    have.  The other library calls of the class ([re.sub] and [re.findall]
    with their constant patterns, [unicodedata.normalize] with the constant
    form ['NFC'], the [str] methods, [len], the arithmetic of [int]) return
    on every [str]. *)
Inductive exception : Type :=
| UnicodeEncodeError (object : str).

(** How a call ends, and what has been written to standard output by then. *)
Inductive outcome (A : Type) : Type :=
| Returns (value : A) (stdout : str)
| Raises (e : exception) (stdout : str).

Arguments Returns {A} value stdout.
Arguments Raises {A} e stdout.

(** A computation that writes to standard output and may raise. *)
Definition action (A : Type) : Type := str -> outcome A.

Definition ret {A : Type} (a : A) : action A := fun stdout => Returns a stdout.

Definition bind {A B : Type} (m : action A) (k : A -> action B) : action B :=
  fun stdout =>
    match m stdout with
    | Returns a stdout' => k a stdout'
    | Raises e stdout' => Raises e stdout'
    end.

Notation "x <- m ;; k" := (bind m (fun x => k))
  (at level 61, m at next level, right associativity).
Notation "m ;; k" := (bind m (fun _ => k))
  (at level 61, right associativity).

(** [for x in xs: body(x)] *)
Fixpoint for_each {A : Type} (xs : list A) (body : A -> action unit) : action unit :=
  match xs with
  | [] => ret tt
  | x :: xs' => body x ;; for_each xs' body
  end.

(** [len(x)] *)
Definition len {A : Type} (x : list A) : Z := Z.of_nat (length x).

(** [str(n)] for an [int] [n], which is how an f-string shows it. *)
Definition str_of_int (n : Z) : str := lit (NilZero.string_of_int (Z.to_int n)).

(** [len(re.findall(pattern, text))]: the scan of [re.sub], counting the
    matches instead of replacing them. *)
Fixpoint count_from (m : matcher) (skip : nat) (prev : option N) (s : str) : nat :=
  match s with
  | [] => 0%nat
  | c :: s' =>
      match skip with
      | S k => count_from m k (Some c) s'
      | O =>
          match m prev s with
          | Some (len, _) => S (count_from m (Nat.pred len) (Some c) s')
          | None => count_from m 0 (Some c) s'
          end
      end
  end.

Definition findall_count (m : matcher) (s : str) : Z := Z.of_nat (count_from m 0 None s).

(** [text.count(sub)] for a non-empty [sub]. *)
Definition count (sub : str) (text : str) : Z := findall_count (m_literal sub []) text.

(** [d.get(k)] on a dict with [str] keys. *)
Fixpoint dict_get (k : str) (d : list (str * str)) : option str :=
  match d with
  | [] => None
  | (k', v) :: d' => if str_eqb k k' then Some v else dict_get k d'
  end.

Module Run.
Section Run.

(** The characters the encoding of [sys.stdout] has. *)
Variable encodable : N -> bool.
Variable nfc : str -> str.
Variable decimal_table : N -> bool.
Variable alnum_table : N -> bool.

(** [sys.stdout.write(s)] *)
Definition stdout_write (s : str) : action unit :=
  fun stdout =>
    if forallb encodable s then Returns tt (stdout ++ s)
    else Raises (UnicodeEncodeError s) stdout.

(** [print(s)]: the text, then the end of the line. *)
Definition print (s : str) : action unit := stdout_write s ;; stdout_write [NL].

(** ["=" * 60] *)
Definition rule : str := repeat 61 60.

(** [_print_step_stats(step_name, original_text, processed_text,
    additional_stats)]; the values of [additional_stats] are all [int]. *)
Definition _print_step_stats (self : TextPreprocessor) (step_name : str)
    (original_text processed_text : str) (additional_stats : list (str * Z))
    : action unit :=
  if negb (verbose self) then ret tt
  else
    let char_diff := (len original_text - len processed_text)%Z in
    let line_diff :=
      (len (split_nl original_text) - len (split_nl processed_text))%Z in
    print ([NL] ++ step_name ++ lit ":") ;;
    print (lit "  - Characters removed: " ++ str_of_int char_diff) ;;
    print (lit "  - Lines removed: " ++ str_of_int line_diff) ;;
    match additional_stats with
    | [] => ret tt
    | _ :: _ =>
        for_each additional_stats (fun kv =>
          print (lit "  - " ++ fst kv ++ lit ": " ++ str_of_int (snd kv)))
    end.

(** Step 2 *)
Definition normalize_unicode (self : TextPreprocessor) (text : str) : action str :=
  let original_text := text in
  let processed_text := nfc text in
  let changes :=
    len (filter (fun op => negb (fst op =? snd op))
           (combine original_text processed_text)) in
  _print_step_stats self (lit "Step 2: Unicode Normalization")
    original_text processed_text
    [(lit "Characters normalized", changes)] ;;
  ret processed_text.

(** Step 3 *)
Definition remove_control_characters (self : TextPreprocessor) (text : str)
    : action str :=
  let original_text := text in
  let processed_text := re_sub (m_class is_control []) text in
  let control_chars_removed := (len original_text - len processed_text)%Z in
  _print_step_stats self (lit "Step 3: Control Character Removal")
    original_text processed_text
    [(lit "Control characters removed", control_chars_removed)] ;;
  ret processed_text.

(** Step 4 *)
Definition normalize_whitespace (self : TextPreprocessor) (text : str)
    : action str :=
  let original_text := text in
  let multiple_spaces := findall_count (m_run 2 is_blank []) text in
  let text := re_sub (m_run 1 is_blank [SP]) text in
  let crlf_count := count [CR; NL] text in
  let cr_count := (count [CR] text - crlf_count)%Z in
  let text := re_sub m_line_ending text in
  let trailing_spaces := findall_count m_trailing_blanks text in
  let text := re_sub m_trailing_blanks text in
  _print_step_stats self (lit "Step 4: Whitespace Normalization")
    original_text text
    [(lit "Multiple spaces normalized", multiple_spaces);
     (lit "CRLF normalized", crlf_count);
     (lit "CR normalized", cr_count);
     (lit "Trailing spaces removed", trailing_spaces)] ;;
  ret text.

(** Step 5 *)
Definition remove_excessive_newlines (self : TextPreprocessor) (text : str)
    : action str :=
  let original_text := text in
  let branch :=
    if preserve_paragraphs self
    then (findall_count (m_run 3 is_nl []) text,
          re_sub (m_run 3 is_nl [NL; NL]) text)
    else (findall_count (m_run 2 is_nl []) text,
          re_sub (m_run 2 is_nl [NL]) text) in
  let excessive_newlines := fst branch in
  let text := snd branch in
  _print_step_stats self (lit "Step 5: Excessive Newline Removal")
    original_text text
    [(lit "Excessive newline groups normalized", excessive_newlines)] ;;
  ret text.

(** Step 5.5 *)
Definition remove_mid_sentence_newlines (self : TextPreprocessor) (text : str)
    : action str :=
  let original_text := text in
  let original_newlines := count [NL] text in
  let text_no_newlines := re_sub (m_run 1 is_nl [SP]) text in
  let text_no_newlines := strip (re_sub (m_run 1 isspace [SP]) text_no_newlines) in
  let processed_text := re_sub m_sentence_break text_no_newlines in
  let processed_text :=
    re_sub (m_abbreviation (isword alnum_table)) processed_text in
  let processed_text :=
    re_sub (m_decimal (isdecimal decimal_table)) processed_text in
  let processed_text := re_sub m_spaces_nl processed_text in
  let processed_text :=
    re_sub (m_paragraph_marker (isdecimal decimal_table)) processed_text in
  let final_newlines := count [NL] processed_text in
  let newlines_removed := (original_newlines - final_newlines)%Z in
  _print_step_stats self (lit "Step 5.5: Mid-sentence Newline Removal")
    original_text processed_text
    [(lit "Total newlines removed", newlines_removed);
     (lit "Sentences properly ended", final_newlines)] ;;
  ret processed_text.

(** Step 6 *)
Definition remove_empty_lines (self : TextPreprocessor) (text : str)
    : action str :=
  let original_text := text in
  let lines := split_nl text in
  let original_line_count := len lines in
  let filtered_lines := filter (keep_line self) lines in
  let empty_lines_removed := (original_line_count - len filtered_lines)%Z in
  let processed_text := join_nl filtered_lines in
  _print_step_stats self (lit "Step 6: Empty Line Removal")
    original_text processed_text
    [(lit "Empty/short lines removed", empty_lines_removed)] ;;
  ret processed_text.

(** Step 7.  The loop carries [total_fixes] and [text]. *)
Definition fix_common_encoding_issues (self : TextPreprocessor) (text : str)
    : action str :=
  let original_text := text in
  let loop :=
    fold_left
      (fun (acc : Z * str) (kv : str * str) =>
         let count := count (fst kv) (snd acc) in
         ((fst acc + count)%Z, replace (fst kv) (snd kv) (snd acc)))
      replacements (0%Z, text) in
  let total_fixes := fst loop in
  let text := snd loop in
  _print_step_stats self (lit "Step 7: Encoding Issue Fixes")
    original_text text
    [(lit "Encoding artifacts fixed", total_fixes)] ;;
  ret text.

(** Step 8 *)
Definition clean_special_characters (self : TextPreprocessor) (text : str)
    : action str :=
  let original_text := text in
  let smart_double_quotes :=
    findall_count (m_class (in_class [DQUOTE; DQUOTE; DQUOTE]) []) text in
  let smart_single_quotes :=
    findall_count (m_class (in_class [SQUOTE; SQUOTE; SQUOTE]) []) text in
  let text := re_sub (m_class (in_class [DQUOTE; DQUOTE; DQUOTE]) [DQUOTE]) text in
  let text := re_sub (m_class (in_class [SQUOTE; SQUOTE; SQUOTE]) [SQUOTE]) text in
  let special_dashes :=
    findall_count (m_class (in_class [EN_DASH; EM_DASH]) []) text in
  let text := re_sub (m_class (in_class [EN_DASH; EM_DASH]) [HYPHEN]) text in
  let ellipsis_chars := count [ELLIPSIS] text in
  let text := replace [ELLIPSIS] [DOT; DOT; DOT] text in
  _print_step_stats self (lit "Step 8: Special Character Cleaning")
    original_text text
    [(lit "Smart double quotes normalized", smart_double_quotes);
     (lit "Smart single quotes normalized", smart_single_quotes);
     (lit "Special dashes normalized", special_dashes);
     (lit "Ellipsis characters normalized", ellipsis_chars)] ;;
  ret text.

(** The pipeline.  [stats] is [self.stats]: empty after [__init__]; the
    script at the end of the file stores the text it read under
    ['original_text'].  The two line counts are f-strings with a backslash
    between their braces, which Python reads from version 3.12 on. *)
Definition preprocess_text (self : TextPreprocessor) (stats : list (str * str))
    (text : str) : action str :=
  (if verbose self then
     print ([NL] ++ rule) ;;
     print (lit "STARTING TEXT PREPROCESSING") ;;
     print rule ;;
     print (lit "Original text length: " ++ str_of_int (len text)
            ++ lit " characters") ;;
     print (lit "Original line count: " ++ str_of_int (len (split_nl text)))
   else ret tt) ;;
  text <- normalize_unicode self text ;;
  text <- remove_control_characters self text ;;
  text <- fix_common_encoding_issues self text ;;
  text <- clean_special_characters self text ;;
  text <- normalize_whitespace self text ;;
  text <- remove_excessive_newlines self text ;;
  text <- remove_mid_sentence_newlines self text ;;
  text <- remove_empty_lines self text ;;
  let original_length := len text in
  let text := strip text in
  let stripped_chars := (original_length - len text)%Z in
  (if verbose self then
     print ([NL] ++ lit "Final cleanup - Leading/trailing whitespace removed: "
            ++ str_of_int stripped_chars) ;;
     print ([NL] ++ rule) ;;
     print (lit "PREPROCESSING COMPLETE") ;;
     print rule ;;
     print (lit "Final text length: " ++ str_of_int (len text)
            ++ lit " characters") ;;
     print (lit "Final line count: " ++ str_of_int (len (split_nl text))) ;;
     print (lit "Total characters removed: "
            ++ match dict_get (lit "original_text") stats with
               | Some original => str_of_int (len original - len text)
               | None => lit "N/A"
               end)
   else ret tt) ;;
  ret text.

End Run.
End Run.

(** A call that returns [a] whatever standard output held before, adding
    to it. *)
Definition returns {A : Type} (m : action A) (a : A) : Prop :=
  forall stdout, exists printed, m stdout = Returns a (stdout ++ printed).

(** A text as Step 7 was written for: [U+0085] among its characters, a
    mis-decoded apostrophe and an e with acute accent. *)
Definition accented_note : str :=
  lit "The patient" ++ [a_circ; euro; 0x2122] ++ lit "s fever fell." ++ [0x85; NL]
  ++ lit "Caf" ++ [0xE9] ++ lit " au lait was allowed.".

(** ** Reasoning about character classes *)

Ltac bool_hyps :=
  repeat match goal with
  | H : _ && _ = true |- _ => apply andb_true_iff in H; destruct H
  | H : _ || _ = false |- _ => apply orb_false_iff in H; destruct H
  | H : negb _ = true |- _ => apply negb_true_iff in H
  | H : negb _ = false |- _ => apply negb_false_iff in H
  | H : (_ =? _) = true |- _ => apply N.eqb_eq in H
  | H : (_ =? _) = false |- _ => apply N.eqb_neq in H
  | H : (_ <=? _) = true |- _ => apply N.leb_le in H
  | H : (_ <=? _) = false |- _ => apply N.leb_gt in H
  | H : (_ <? _) = true |- _ => apply N.ltb_lt in H
  | H : (_ <? _) = false |- _ => apply N.ltb_ge in H
  | H : _ || _ = true |- _ => apply orb_true_iff in H; destruct H
  | H : _ && _ = false |- _ => apply andb_false_iff in H; destruct H
  end.

Ltac unfold_classes :=
  unfold isspace, is_control, is_sentence_end, is_blank, is_nl, is_sp,
    is_ascii_word, is_ascii_digit, is_upper, is_lower, in_range,
    TAB, NL, CR, SP, DOT, COMMA, DQUOTE, SQUOTE, HYPHEN,
    EM_DASH, EN_DASH, ELLIPSIS, a_circ, euro in *.

(** Decides a goal [b = true] or [b = false] about the class of a character
    from hypotheses of the same kind. *)
Ltac char_bool :=
  match goal with
  | |- ?b = true => destruct b eqn:?; [reflexivity | exfalso]
  | |- ?b = false => destruct b eqn:?; [exfalso | reflexivity]
  | |- _ => exfalso
  end;
  unfold_classes; bool_hyps; lia.

Lemma sentence_end_not_space c : is_sentence_end c = true -> isspace c = false.
Proof. intros; char_bool. Qed.

Lemma sentence_end_not_nl c : is_sentence_end c = true -> (c =? NL) = false.
Proof. intros; char_bool. Qed.

Lemma nl_is_space c : (c =? NL) = true -> isspace c = true.
Proof. intros; char_bool. Qed.

Lemma blank_is_space c : is_blank c = true -> isspace c = true.
Proof. intros; char_bool. Qed.

(** ** The scan *)

Lemma take_drop_while p s : take_while p s ++ drop_while p s = s.
Proof.
  induction s as [|c s IH]; simpl; [reflexivity|].
  destruct (p c); simpl; [now rewrite IH | reflexivity].
Qed.

Lemma skipn_take_while p s : skipn (length (take_while p s)) s = drop_while p s.
Proof.
  induction s as [|c s IH]; simpl; [reflexivity|].
  destruct (p c); simpl; [exact IH | reflexivity].
Qed.

Lemma drop_while_head p s c s' : drop_while p s = c :: s' -> p c = false.
Proof.
  induction s as [|d s IH]; simpl; [discriminate|].
  destruct (p d) eqn:E; [exact IH | intros [= -> _]; exact E].
Qed.

Lemma take_while_all p s : forallb p (take_while p s) = true.
Proof.
  induction s as [|c s IH]; simpl; [reflexivity|].
  destruct (p c) eqn:E; simpl; [now rewrite E | reflexivity].
Qed.

(** A matcher that does not look behind. *)
Definition stateless (m : matcher) : Prop := forall p q s, m p s = m q s.

(** Stepping over [k] characters is dropping them. *)
Lemma sub_from_skipn m : stateless m ->
  forall s k p, sub_from m k p s = re_sub m (skipn k s).
Proof.
  intros Hm s; induction s as [|c s IH]; intros k p.
  - destruct k; reflexivity.
  - destruct k; simpl.
    + unfold re_sub; simpl. rewrite (Hm p None). reflexivity.
    + apply IH.
Qed.

Lemma re_sub_cons m : stateless m -> forall c s,
  re_sub m (c :: s) =
  match m None (c :: s) with
  | Some (len, rep) => rep ++ re_sub m (skipn (Nat.pred len) s)
  | None => c :: re_sub m s
  end.
Proof.
  intros Hm c s. unfold re_sub at 1. simpl.
  destruct (m None (c :: s)) as [[len rep]|].
  - now rewrite (sub_from_skipn m Hm).
  - now rewrite (sub_from_skipn m Hm s 0 (Some c)).
Qed.

(** Induction along the scan of a stateless pattern. *)
Lemma re_sub_ind m (Hm : stateless m) (P : str -> str -> Prop) :
  P [] [] ->
  (forall c s, m None (c :: s) = None ->
     P s (re_sub m s) -> P (c :: s) (c :: re_sub m s)) ->
  (forall c s len rep, m None (c :: s) = Some (len, rep) ->
     P (skipn (Nat.pred len) s) (re_sub m (skipn (Nat.pred len) s)) ->
     P (c :: s) (rep ++ re_sub m (skipn (Nat.pred len) s))) ->
  forall s, P s (re_sub m s).
Proof.
  intros Hnil Hno Hyes s.
  remember (length s) as n eqn:Hn.
  revert s Hn. induction n as [n IH] using lt_wf_ind. intros s Hn.
  destruct s as [|c s]; [exact Hnil|].
  rewrite (re_sub_cons m Hm).
  destruct (m None (c :: s)) as [[len rep]|] eqn:E.
  - apply (Hyes _ _ _ _ E).
    apply (IH (length (skipn (Nat.pred len) s))); [|reflexivity].
    subst n. simpl. rewrite length_skipn. lia.
  - apply (Hno _ _ E). apply (IH (length s)); [subst n; simpl; lia | reflexivity].
Qed.

Lemma stateless_class p rep : stateless (m_class p rep).
Proof. intros a b s; reflexivity. Qed.
Lemma stateless_run k p rep : stateless (m_run k p rep).
Proof. intros a b s; reflexivity. Qed.
Lemma stateless_line_ending : stateless m_line_ending.
Proof. intros a b s; reflexivity. Qed.
Lemma stateless_trailing_blanks : stateless m_trailing_blanks.
Proof. intros a b s; reflexivity. Qed.
Lemma stateless_sentence_break : stateless m_sentence_break.
Proof. intros a b s; reflexivity. Qed.
Lemma stateless_decimal d : stateless (m_decimal d).
Proof. intros a b s; reflexivity. Qed.
Lemma stateless_spaces_nl : stateless m_spaces_nl.
Proof. intros a b s; reflexivity. Qed.
Lemma stateless_paragraph_marker d : stateless (m_paragraph_marker d).
Proof. intros a b s; reflexivity. Qed.
Lemma stateless_literal old new : stateless (m_literal old new).
Proof. intros a b s; reflexivity. Qed.

Create HintDb scan.
#[local] Hint Resolve stateless_class stateless_run stateless_line_ending
  stateless_trailing_blanks stateless_sentence_break stateless_decimal
  stateless_spaces_nl stateless_paragraph_marker stateless_literal : scan.

(** Deleting a class is filtering it out. *)
Lemma re_sub_class_delete p s :
  re_sub (m_class p []) s = filter (fun c => negb (p c)) s.
Proof.
  induction s as [|c s IH]; [reflexivity|].
  rewrite re_sub_cons by auto with scan. simpl.
  destruct (p c); simpl; now rewrite IH.
Qed.

(** Replacing each member of a class by one character is a map. *)
Lemma re_sub_class_map p r s :
  re_sub (m_class p [r]) s = map (fun c => if p c then r else c) s.
Proof.
  induction s as [|c s IH]; [reflexivity|].
  rewrite re_sub_cons by auto with scan. simpl.
  destruct (p c); simpl; now rewrite IH.
Qed.

(** ** Chains *)

Lemma chain_app R a : forall prev b,
  chain R prev (a ++ b) = chain R prev a && chain R (last_opt prev a) b.
Proof.
  induction a as [|c a IH]; intros prev b; simpl; [reflexivity|].
  now rewrite IH, andb_assoc.
Qed.

Lemma last_opt_app a : forall prev b,
  last_opt prev (a ++ b) = last_opt (last_opt prev a) b.
Proof. induction a as [|c a IH]; intros; simpl; [reflexivity | apply IH]. Qed.

Lemma chain_drop_while R p s : forall prev,
  chain R prev s = true ->
  chain R (last_opt prev (take_while p s)) (drop_while p s) = true.
Proof.
  intros prev H. rewrite <- (take_drop_while p s) in H at 1.
  rewrite chain_app in H. now apply andb_true_iff in H as [_ H].
Qed.

(** ** Whitespace collapsing: [\s+] -> one space *)

Lemma run_match_head k p rep c s len r :
  m_run (S k) p rep None (c :: s) = Some (len, r) ->
  p c = true /\ len = S (length (take_while p s)) /\ r = rep.
Proof.
  unfold m_run. simpl. destruct (p c); simpl.
  - destruct (Nat.leb k (length (take_while p s))); [|discriminate].
    intros [= <- <-]. auto.
  - discriminate.
Qed.

Lemma run1_nomatch_head p rep c s :
  m_run 1 p rep None (c :: s) = None -> p c = false.
Proof. unfold m_run. simpl. destruct (p c); simpl; [discriminate | reflexivity]. Qed.

Lemma collapse_chain x : forall prev,
  (starts_space x = true -> opt_test isspace prev = false) ->
  chain R_collapsed prev (re_sub (m_run 1 isspace [SP]) x) = true.
Proof.
  pattern x, (re_sub (m_run 1 isspace [SP]) x).
  apply re_sub_ind; [auto with scan | reflexivity | |]; clear x.
  - intros c s Hm IH prev Hp. apply run1_nomatch_head in Hm.
    simpl. unfold R_collapsed at 1. rewrite Hm. simpl.
    apply IH. intros _. exact Hm.
  - intros c s len rep Hm IH prev Hp.
    apply run_match_head in Hm as (Hc & -> & ->). cbn [Nat.pred] in *.
    rewrite skipn_take_while in *. simpl.
    unfold R_collapsed at 1. simpl. rewrite (Hp Hc). simpl.
    apply IH. destruct (drop_while isspace s) as [|d s'] eqn:E; simpl; [discriminate|].
    apply drop_while_head in E. rewrite E. discriminate.
Qed.

Lemma chain_collapsed_tidy s : forall p,
  chain R_collapsed (Some p) s = chain R_tidy (Some p) s.
Proof.
  induction s as [|c s IH]; intros p; simpl; [reflexivity|].
  now rewrite IH.
Qed.

Lemma lstrip_tidy u prev :
  chain R_collapsed prev u = true -> chain R_tidy None (lstrip u) = true.
Proof.
  intros H. unfold lstrip.
  pose proof (chain_drop_while R_collapsed isspace u prev H) as H'.
  destruct (drop_while isspace u) as [|c s] eqn:E; [reflexivity|].
  apply drop_while_head in E. simpl in *.
  apply andb_true_iff in H' as [_ H']. rewrite chain_collapsed_tidy in H'.
  unfold R_tidy at 1. rewrite E. exact H'.
Qed.

(** [rstrip] cuts off a run of whitespace at the end. *)
Lemma rstrip_spec v :
  exists tr, v = rstrip v ++ tr /\ forallb isspace tr = true
             /\ ends_nonspace (rstrip v) = true.
Proof.
  unfold rstrip. exists (rev (take_while isspace (rev v))). split; [|split].
  - rewrite <- rev_app_distr, take_drop_while. now rewrite rev_involutive.
  - rewrite forallb_forall. intros c Hc. apply in_rev in Hc.
    pose proof (take_while_all isspace (rev v)) as H.
    rewrite forallb_forall in H. now apply H.
  - unfold ends_nonspace. destruct (drop_while isspace (rev v)) as [|c s] eqn:E.
    + reflexivity.
    + apply drop_while_head in E. simpl. rewrite last_opt_app. simpl. now rewrite E.
Qed.

Lemma strip_tidy u prev :
  chain R_collapsed prev u = true -> tidy (strip u) = true.
Proof.
  intros H. apply lstrip_tidy in H. unfold strip, tidy.
  destruct (rstrip_spec (lstrip u)) as (tr & Heq & _ & Hend).
  rewrite Hend, andb_true_r.
  rewrite Heq, chain_app in H. now apply andb_true_iff in H as [H _].
Qed.

(** ** Sentence breaks: [([.!?:;])\s+] -> [\1\n] *)

Lemma chain_rehead1 R p q c s :
  R q c = true -> chain R p (c :: s) = true -> chain R q (c :: s) = true.
Proof.
  simpl. intros Hq H. apply andb_true_iff in H as [_ H]. now rewrite Hq, H.
Qed.

Lemma last_opt_nonempty s : s <> [] -> forall p q, last_opt p s = last_opt q s.
Proof. destruct s; [congruence | reflexivity]. Qed.

Lemma starts_space_take_while s :
  starts_space s = Nat.leb 1 (length (take_while isspace s)).
Proof. destruct s as [|c s]; simpl; [reflexivity|]. now destruct (isspace c). Qed.

Lemma sentence_break_match c s len rep :
  m_sentence_break None (c :: s) = Some (len, rep) ->
  is_sentence_end c = true /\ starts_space s = true
  /\ len = S (length (take_while isspace s)) /\ rep = [c; NL].
Proof.
  unfold m_sentence_break. rewrite starts_space_take_while.
  destruct (is_sentence_end c); [|discriminate].
  destruct (Nat.leb 1 (length (take_while isspace s))); [|discriminate].
  intros [= <- <-]. auto.
Qed.

Lemma sentence_break_nomatch c s :
  m_sentence_break None (c :: s) = None ->
  starts_space s = true -> is_sentence_end c = false.
Proof.
  unfold m_sentence_break. rewrite starts_space_take_while.
  destruct (is_sentence_end c); [|reflexivity].
  destruct (Nat.leb 1 (length (take_while isspace s))); discriminate.
Qed.

Lemma sentence_break_chain w : forall prev,
  chain R_tidy prev w = true ->
  (starts_space w = true -> opt_test is_sentence_end prev = false) ->
  chain R_segmented prev (re_sub m_sentence_break w) = true.
Proof.
  pattern w, (re_sub m_sentence_break w).
  apply re_sub_ind; [auto with scan | reflexivity | |]; clear w.
  - intros c s Hm IH prev Hch Hp. simpl in Hch.
    apply andb_true_iff in Hch as [Hc Hch]. simpl.
    rewrite (IH (Some c) Hch (sentence_break_nomatch _ _ Hm)), andb_true_r.
    unfold R_tidy in Hc. unfold R_segmented.
    destruct (isspace c) eqn:Esp.
    + apply andb_true_iff in Hc as [Hsp Hprev].
      specialize (Hp Esp).
      replace (c =? NL) with false by (symmetry; char_bool).
      rewrite Hsp. simpl. destruct prev as [p|]; simpl in *; [|discriminate].
      now rewrite Hprev, Hp.
    + replace (c =? NL) with false by (symmetry; char_bool). reflexivity.
  - intros c s len rep Hm IH prev Hch Hp.
    apply sentence_break_match in Hm as (Hc & Hs & -> & ->).
    cbn [Nat.pred] in *. rewrite skipn_take_while in *.
    simpl in Hch. apply andb_true_iff in Hch as [_ Hch].
    apply (chain_drop_while _ isspace) in Hch.
    simpl. unfold R_segmented at 1 2.
    rewrite (sentence_end_not_nl _ Hc), (sentence_end_not_space _ Hc).
    simpl. rewrite Hc. simpl.
    destruct (drop_while isspace s) as [|d r] eqn:E; [reflexivity|].
    pose proof (drop_while_head _ _ _ _ E) as Hd.
    apply IH.
    + apply chain_rehead1 with (p := last_opt (Some c) (take_while isspace s));
        [|exact Hch].
      unfold R_tidy. now rewrite Hd.
    + simpl. rewrite Hd. discriminate.
Qed.

Lemma sentence_break_last w : forall q,
  opt_test isspace (last_opt q w) = false ->
  last_opt q (re_sub m_sentence_break w) = last_opt q w.
Proof.
  pattern w, (re_sub m_sentence_break w).
  apply re_sub_ind; [auto with scan | reflexivity | |]; clear w.
  - intros c s _ IH q H. simpl in *. now apply IH.
  - intros c s len rep Hm IH q H.
    apply sentence_break_match in Hm as (Hc & Hs & -> & ->).
    cbn [Nat.pred] in *. rewrite skipn_take_while in *.
    simpl in *.
    assert (Hsplit : last_opt (Some c) s =
              last_opt (last_opt (Some c) (take_while isspace s)) (drop_while isspace s))
      by now rewrite <- last_opt_app, take_drop_while.
    rewrite Hsplit in *. clear Hsplit.
    destruct (drop_while isspace s) as [|d r] eqn:E.
    + exfalso. simpl in H.
      destruct s as [|a s']; [discriminate|]. simpl in Hs, H.
      rewrite Hs in H. simpl in H.
      pose proof (take_while_all isspace s') as Hall.
      assert (Hx : forall l p, forallb isspace l = true -> isspace p = true ->
                 opt_test isspace (last_opt (Some p) l) = true).
      { induction l as [|x l IHl]; intros p Hl Hp'; simpl in *; [exact Hp'|].
        apply andb_true_iff in Hl as [Hx Hl]. now apply IHl. }
      rewrite (Hx _ _ Hall Hs) in H. discriminate.
    + rewrite (IH (Some NL)); [reflexivity | exact H].
Qed.

Lemma sentence_break_segmented w :
  tidy w = true -> segmented (re_sub m_sentence_break w) = true.
Proof.
  unfold tidy, segmented. intros H. apply andb_true_iff in H as [H1 H2].
  rewrite sentence_break_chain; [|exact H1|discriminate 2 || (intros _; reflexivity)].
  unfold ends_nonspace in *. apply negb_true_iff in H2.
  now rewrite sentence_break_last, H2.
Qed.

(** ** Patterns that find nothing in segmented text *)

Lemma sub_from_noop m R :
  (forall prev c s, chain R prev (c :: s) = true -> m prev (c :: s) = None) ->
  forall s prev, chain R prev s = true -> sub_from m 0 prev s = s.
Proof.
  intros Hm s; induction s as [|c s IH]; intros prev H; [reflexivity|].
  simpl. rewrite (Hm _ _ _ H). simpl in H.
  apply andb_true_iff in H as [_ H]. now rewrite (IH _ H).
Qed.

Lemma first_alternative_found alts s a :
  first_alternative alts s = Some a -> In a alts /\ starts_with (a ++ [NL]) s = true.
Proof.
  induction alts as [|x alts IH]; simpl; [discriminate|].
  destruct (starts_with (x ++ [NL]) s) eqn:E.
  - intros [= <-]. auto.
  - intros H. destruct (IH H). auto.
Qed.

(** In segmented text, what stands right before a newline is a sentence end. *)
Lemma before_newline_segmented a : forall s prev,
  starts_with (a ++ [NL]) s = true -> chain R_segmented prev s = true ->
  opt_test is_sentence_end (last_opt prev a) = true.
Proof.
  induction a as [|x a IH]; intros s prev Hs Hc.
  - destruct s as [|c s]; simpl in *; [discriminate|].
    apply andb_true_iff in Hs as [Hs _]. apply andb_true_iff in Hc as [Hc _].
    apply N.eqb_eq in Hs. subst c.
    unfold R_segmented in Hc. now rewrite N.eqb_refl in Hc.
  - destruct s as [|c s]; simpl in *; [discriminate|].
    apply andb_true_iff in Hs as [Hx Hs]. apply andb_true_iff in Hc as [_ Hc].
    apply N.eqb_eq in Hx. subst c. exact (IH _ _ Hs Hc).
Qed.

Lemma abbreviations_end_in_letters :
  forallb (fun a => negb (opt_test is_sentence_end (last_opt None a))) abbreviations = true.
Proof. reflexivity. Qed.

Lemma abbreviation_noop isword t prev :
  chain R_segmented prev t = true -> sub_from (m_abbreviation isword) 0 prev t = t.
Proof.
  apply (sub_from_noop _ R_segmented). clear. intros prev c s H.
  unfold m_abbreviation. destruct (word_boundary isword prev (c :: s)); [|reflexivity].
  destruct (first_alternative abbreviations (c :: s)) as [a|] eqn:E; [|reflexivity].
  exfalso. apply first_alternative_found in E as [Hin Hs].
  pose proof (before_newline_segmented _ _ _ Hs H) as Hlast.
  pose proof abbreviations_end_in_letters as Hall.
  rewrite forallb_forall in Hall. specialize (Hall _ Hin).
  destruct a as [|x a]; [simpl in Hin; vm_compute in Hin; intuition discriminate|].
  simpl in Hlast, Hall. rewrite Hlast in Hall. discriminate.
Qed.

Lemma spaces_nl_noop t prev :
  chain R_segmented prev t = true -> sub_from m_spaces_nl 0 prev t = t.
Proof.
  apply (sub_from_noop _ R_segmented). clear. intros prev c s H.
  unfold m_spaces_nl. simpl. unfold is_sp at 1 3.
  destruct (c =? SP) eqn:Ec; [|reflexivity]. simpl.
  destruct s as [|d s]; [reflexivity|].
  simpl in H. apply andb_true_iff in H as [_ H].
  apply andb_true_iff in H as [H _].
  apply N.eqb_eq in Ec. subst c.
  unfold R_segmented in H. simpl in H.
  destruct (d =? NL) eqn:En; [discriminate|].
  destruct (isspace d) eqn:Ed.
  - rewrite andb_false_r in H. discriminate.
  - simpl. unfold is_sp. replace (d =? SP) with false by (symmetry; char_bool).
    now rewrite En.
Qed.

(** ** Paragraph markers: [\n([A-Z][a-z]+ \d+,)] -> [\n\n\1] *)

Lemma paragraph_marker_match d c s len rep :
  m_paragraph_marker d None (c :: s) = Some (len, rep) ->
  exists k, c = NL /\ len = S k /\ rep = NL :: NL :: firstn k s.
Proof.
  unfold m_paragraph_marker. destruct s as [|u s2]; [discriminate|].
  destruct ((c =? NL) && is_upper u) eqn:E1; [|discriminate].
  apply andb_true_iff in E1 as [E1 _]. apply N.eqb_eq in E1.
  destruct (Nat.leb 1 (length (take_while is_lower s2))); [|discriminate].
  destruct (drop_while is_lower s2) as [|sp s4]; [discriminate|].
  destruct (sp =? SP); [|discriminate].
  destruct (Nat.leb 1 (length (take_while d s4))); [|discriminate].
  destruct (drop_while d s4) as [|cm s5]; [discriminate|].
  destruct (cm =? COMMA); [|discriminate].
  intros [= <- <-].
  exists (length (take_while is_lower s2) + length (take_while d s4) + 3)%nat.
  repeat split; [exact E1 | lia].
Qed.

Lemma doubled_app a t g : doubled t g -> doubled (a ++ t) (a ++ g).
Proof. intros H. induction a; simpl; [exact H | now constructor]. Qed.

Lemma paragraph_marker_doubled d t : doubled t (re_sub (m_paragraph_marker d) t).
Proof.
  pattern t, (re_sub (m_paragraph_marker d) t).
  apply re_sub_ind; [auto with scan | constructor | |]; clear t.
  - intros c s _ IH. now constructor.
  - intros c s len rep Hm IH.
    apply paragraph_marker_match in Hm as (k & -> & -> & ->).
    cbn [Nat.pred] in *. simpl. apply doubled_dup.
    rewrite <- (firstn_skipn k s) at 1. now apply doubled_app.
Qed.

Section SentenceSegmentation.

Variable decimal_table : N -> bool.
Variable alnum_table : N -> bool.

Lemma sentence_end_not_decimal c :
  is_sentence_end c = true -> isdecimal decimal_table c = false.
Proof.
  intros H. unfold isdecimal.
  replace (c <? 128) with true by (symmetry; char_bool). char_bool.
Qed.

Lemma decimal_noop t prev :
  chain R_segmented prev t = true ->
  sub_from (m_decimal (isdecimal decimal_table)) 0 prev t = t.
Proof.
  apply (sub_from_noop _ R_segmented). clear prev t. intros prev c s H.
  unfold m_decimal. destruct s as [|n [|b s]]; try reflexivity.
  simpl in H. apply andb_true_iff in H as [_ H]. apply andb_true_iff in H as [H _].
  destruct (n =? NL) eqn:En.
  - unfold R_segmented in H. rewrite En in H. simpl in H.
    now rewrite (sentence_end_not_decimal _ H).
  - now rewrite andb_false_r.
Qed.

(** Step 5.5 yields segmented text in which some newlines were doubled. *)
Lemma remove_mid_sentence_newlines_shape x :
  exists t, segmented t = true
            /\ doubled t (remove_mid_sentence_newlines decimal_table alnum_table x).
Proof.
  unfold remove_mid_sentence_newlines.
  set (w := strip (re_sub (m_run 1 isspace [SP]) (re_sub (m_run 1 is_nl [SP]) x))).
  assert (Hw : tidy w = true).
  { apply strip_tidy with (prev := None). apply collapse_chain. reflexivity. }
  exists (re_sub m_sentence_break w).
  pose proof (sentence_break_segmented w Hw) as Hseg. split; [exact Hseg|].
  apply andb_true_iff in Hseg as [Hch _].
  change (re_sub (m_abbreviation (isword alnum_table)) (re_sub m_sentence_break w))
    with (sub_from (m_abbreviation (isword alnum_table)) 0 None (re_sub m_sentence_break w)).
  rewrite abbreviation_noop by exact Hch.
  change (re_sub (m_decimal (isdecimal decimal_table)) (re_sub m_sentence_break w))
    with (sub_from (m_decimal (isdecimal decimal_table)) 0 None (re_sub m_sentence_break w)).
  rewrite decimal_noop by exact Hch.
  change (re_sub m_spaces_nl (re_sub m_sentence_break w))
    with (sub_from m_spaces_nl 0 None (re_sub m_sentence_break w)).
  rewrite spaces_nl_noop by exact Hch.
  apply paragraph_marker_doubled.
Qed.

End SentenceSegmentation.

(** ** Lines *)

Lemma split_nl_nonempty s : split_nl s <> [].
Proof.
  destruct s as [|c s]; simpl; [discriminate|].
  destruct (c =? NL); [discriminate|]. destruct (split_nl s); discriminate.
Qed.

Lemma split_nl_no_nl l : no_nl l = true -> split_nl l = [l].
Proof.
  induction l as [|c l IH]; simpl; [reflexivity|].
  intros H. apply andb_true_iff in H as [Hc Hl]. apply negb_true_iff in Hc.
  now rewrite Hc, (IH Hl).
Qed.

Lemma split_nl_app l rest :
  no_nl l = true -> split_nl (l ++ NL :: rest) = l :: split_nl rest.
Proof.
  induction l as [|c l IH]; simpl.
  - intros _. reflexivity.
  - intros H. apply andb_true_iff in H as [Hc Hl]. apply negb_true_iff in Hc.
    now rewrite Hc, (IH Hl).
Qed.

Lemma split_join ls :
  ls <> [] -> forallb no_nl ls = true -> split_nl (join_nl ls) = ls.
Proof.
  induction ls as [|l ls IH]; [congruence|]. intros _ H.
  simpl in H. apply andb_true_iff in H as [Hl Hls].
  destruct ls as [|l' ls'].
  - simpl. now apply split_nl_no_nl.
  - change (join_nl (l :: l' :: ls')) with (l ++ NL :: join_nl (l' :: ls')).
    rewrite split_nl_app by exact Hl. rewrite IH; [reflexivity | discriminate | exact Hls].
Qed.

Lemma take_while_not_nl s : no_nl (take_while not_nl s) = true.
Proof. apply take_while_all. Qed.

Lemma R_segmented_after_nl c : R_segmented (Some NL) c = R_segmented None c.
Proof.
  unfold R_segmented. destruct (c =? NL); [reflexivity|].
  destruct (isspace c); [|reflexivity]. simpl. now rewrite andb_false_r.
Qed.

Lemma chain_segmented_after_nl s :
  chain R_segmented (Some NL) s = chain R_segmented None s.
Proof. destruct s as [|c s]; simpl; [reflexivity|]. now rewrite R_segmented_after_nl. Qed.

Lemma segmented_head c s : chain R_segmented None (c :: s) = true -> isspace c = false.
Proof.
  simpl. intros H. apply andb_true_iff in H as [H _]. unfold R_segmented in H.
  destruct (c =? NL) eqn:E; [discriminate|].
  destruct (isspace c); [|reflexivity]. now rewrite andb_false_r in H.
Qed.

(** A segmented text splits into well-formed lines. *)
Lemma split_segmented t :
  segmented t = true -> t <> [] -> lines_ok (split_nl t) = true.
Proof.
  remember (length t) as n eqn:Hn. revert t Hn.
  induction n as [n IH] using lt_wf_ind. intros t Hn Hseg Hne.
  pose proof (take_drop_while not_nl t) as Hsplit.
  pose proof (take_while_not_nl t) as Hl.
  set (l := take_while not_nl t) in *.
  unfold segmented in Hseg. apply andb_true_iff in Hseg as [Hch Hend].
  destruct (drop_while not_nl t) as [|c rest] eqn:Hd.
  - rewrite app_nil_r in Hsplit. rewrite Hsplit in Hl.
    rewrite split_nl_no_nl by exact Hl. simpl.
    unfold line_ok, segmented. rewrite Hch, Hend, Hl.
    destruct t; [congruence | reflexivity].
  - apply drop_while_head in Hd. unfold not_nl in Hd.
    apply negb_false_iff, N.eqb_eq in Hd. subst c.
    rewrite <- Hsplit in Hch, Hend |- *. rewrite split_nl_app by exact Hl.
    rewrite chain_app in Hch. apply andb_true_iff in Hch as [Hcl Hcr].
    simpl in Hcr. apply andb_true_iff in Hcr as [Hnl Hcr].
    unfold R_segmented in Hnl. rewrite N.eqb_refl in Hnl.
    rewrite chain_segmented_after_nl in Hcr.
    unfold ends_nonspace in Hend. rewrite last_opt_app in Hend. simpl in Hend.
    assert (Hrest : rest <> []).
    { intros ->. simpl in Hend. discriminate. }
    assert (Hsegr : segmented rest = true).
    { unfold segmented, ends_nonspace. rewrite Hcr.
      now rewrite (last_opt_nonempty rest Hrest None (Some NL)). }
    assert (Hlen : (length rest < n)%nat).
    { subst n. rewrite <- Hsplit, length_app. simpl. lia. }
    pose proof (IH _ Hlen rest eq_refl Hsegr Hrest) as IHr.
    pose proof (split_nl_nonempty rest) as Hsn.
    destruct (split_nl rest) as [|l2 ls2] eqn:Es; [congruence|].
    change (lines_ok (l :: l2 :: ls2))
      with (line_ok l && ends_sentence l && lines_ok (l2 :: ls2)).
    rewrite IHr. unfold ends_sentence. rewrite Hnl.
    unfold line_ok, segmented, ends_nonspace. rewrite Hcl, Hl.
    destruct l as [|x l']; [discriminate|].
    destruct (last_opt None (x :: l')) as [e|]; [|discriminate].
    simpl in Hnl |- *. now rewrite (sentence_end_not_space _ Hnl).
Qed.

Lemma lines_ok_filter (f : str -> bool) ls : lines_ok ls = true -> lines_ok (filter f ls) = true.
Proof.
  induction ls as [|l ls IH]; [reflexivity|].
  cbn [lines_ok filter]. intros H.
  apply andb_true_iff in H as [H Hls]. apply andb_true_iff in H as [Hl He].
  specialize (IH Hls). destruct (f l); [|exact IH].
  cbn [lines_ok]. rewrite Hl, IH.
  destruct (filter f ls) eqn:Ef; [reflexivity|].
  destruct ls; [discriminate | now rewrite He].
Qed.

Lemma lines_ok_no_nl ls : lines_ok ls = true -> forallb no_nl ls = true.
Proof.
  induction ls as [|l ls IH]; [reflexivity|].
  cbn [lines_ok forallb]. intros H.
  apply andb_true_iff in H as [H Hls]. apply andb_true_iff in H as [Hl _].
  unfold line_ok in Hl. apply andb_true_iff in Hl as [Hl _].
  apply andb_true_iff in Hl as [_ Hl]. now rewrite Hl, IH.
Qed.

Lemma join_nl_nonempty ls :
  ls <> [] -> lines_ok ls = true -> join_nl ls <> [].
Proof.
  destruct ls as [|l ls]; [congruence|]. intros _ H.
  cbn [lines_ok] in H. apply andb_true_iff in H as [H _].
  apply andb_true_iff in H as [H _]. unfold line_ok in H.
  apply andb_true_iff in H as [_ H].
  destruct l; [discriminate|]. destruct ls; discriminate.
Qed.

(** Well-formed lines join into segmented text. *)
Lemma join_segmented ls : lines_ok ls = true -> segmented (join_nl ls) = true.
Proof.
  induction ls as [|l ls IH]; [reflexivity|]. intros H.
  pose proof H as H0. cbn [lines_ok] in H.
  apply andb_true_iff in H as [H Hls]. apply andb_true_iff in H as [Hl He].
  unfold line_ok in Hl. apply andb_true_iff in Hl as [Hl _].
  apply andb_true_iff in Hl as [Hl _].
  destruct ls as [|l' ls']; [exact Hl|].
  change (join_nl (l :: l' :: ls')) with (l ++ NL :: join_nl (l' :: ls')).
  specialize (IH Hls).
  pose proof (join_nl_nonempty (l' :: ls') ltac:(discriminate) Hls) as Hne.
  unfold segmented in *. apply andb_true_iff in Hl as [Hcl _].
  apply andb_true_iff in IH as [Hcr Her].
  rewrite chain_app, Hcl. cbn [chain]. rewrite chain_segmented_after_nl, Hcr.
  unfold R_segmented at 1. rewrite N.eqb_refl.
  unfold ends_sentence in He. rewrite He.
  unfold ends_nonspace in *. rewrite last_opt_app. cbn [last_opt].
  now rewrite (last_opt_nonempty _ Hne (Some NL) None), Her.
Qed.

Lemma strip_fixed s : starts_space s = false -> ends_nonspace s = true -> strip s = s.
Proof.
  intros Hs He. unfold strip, lstrip, rstrip.
  assert (Hl : drop_while isspace s = s).
  { destruct s as [|c s]; [reflexivity|]. simpl in *. now rewrite Hs. }
  rewrite Hl. unfold ends_nonspace in He.
  assert (Hy : s = rev (rev s)) by (symmetry; apply rev_involutive).
  destruct (rev s) as [|c r] eqn:E.
  - simpl in *. now rewrite Hy.
  - rewrite Hy in He. cbn [rev] in He. rewrite last_opt_app in He.
    cbn [last_opt opt_test] in He. apply negb_true_iff in He.
    cbn [drop_while]. rewrite He. symmetry. exact Hy.
Qed.

Lemma segmented_strip y : segmented y = true -> strip y = y.
Proof.
  unfold segmented. intros H. apply andb_true_iff in H as [Hc He].
  apply strip_fixed; [|exact He].
  destruct y as [|c y]; [reflexivity|]. exact (segmented_head _ _ Hc).
Qed.

(** Doubling newlines only adds empty lines. *)
Lemma doubled_lines (f : str -> bool) t g :
  f [] = false -> doubled t g ->
  exists (l : str) (ls ls' : list str), split_nl t = l :: ls /\ split_nl g = l :: ls'
                   /\ filter f ls = filter f ls'.
Proof.
  intros Hf H. induction H as [|c t g H (l & ls & ls' & Ht & Hg & Hfl)
                               |t g H (l & ls & ls' & Ht & Hg & Hfl)].
  - exists [], [], []. auto.
  - simpl. destruct (c =? NL).
    + exists [], (l :: ls), (l :: ls'). rewrite Ht, Hg. simpl. rewrite Hfl. auto.
    + rewrite Ht, Hg. exists (c :: l), ls, ls'. auto.
  - simpl. rewrite Ht, Hg.
    exists [], (l :: ls), ([] :: l :: ls'). simpl. rewrite Hf, Hfl. auto.
Qed.

Lemma doubled_filter (f : str -> bool) t g :
  f [] = false -> doubled t g -> filter f (split_nl g) = filter f (split_nl t).
Proof.
  intros Hf H. destruct (doubled_lines f t g Hf H) as (l & ls & ls' & -> & -> & E).
  simpl. now rewrite E.
Qed.

(** ** The shape of the output *)

Lemma keep_line_nil self : keep_line self [] = false.
Proof. reflexivity. Qed.

Lemma forallb_filter (f : str -> bool) ls : forallb f (filter f ls) = true.
Proof.
  induction ls as [|l ls IH]; [reflexivity|]. simpl.
  destruct (f l) eqn:E; [simpl; now rewrite E|exact IH].
Qed.

Lemma filter_all (f : str -> bool) ls : forallb f ls = true -> filter f ls = ls.
Proof.
  induction ls as [|l ls IH]; [reflexivity|]. simpl. intros H.
  apply andb_true_iff in H as [Hl Hls]. now rewrite Hl, (IH Hls).
Qed.

(** Filtering the lines of doubled segmented text yields well-formed lines
    and segmented text again. *)
Lemma remove_empty_lines_shape self t g :
  segmented t = true -> doubled t g ->
  exists K, lines_ok K = true /\ forallb (keep_line self) K = true
            /\ strip (remove_empty_lines self g) = join_nl K.
Proof.
  intros Hseg Hd. unfold remove_empty_lines.
  rewrite (doubled_filter (keep_line self) t g (keep_line_nil self) Hd).
  set (K := filter (keep_line self) (split_nl t)).
  assert (HK : lines_ok K = true).
  { destruct t as [|c t]; [reflexivity|].
    apply lines_ok_filter, split_segmented; [exact Hseg | discriminate]. }
  exists K. split; [exact HK|]. split; [apply forallb_filter|].
  apply segmented_strip, join_segmented, HK.
Qed.

Section Output.

Variable nfc : str -> str.
Variable decimal_table : N -> bool.
Variable alnum_table : N -> bool.

Local Abbreviation preprocess := (preprocess_text nfc decimal_table alnum_table).

(** Whatever the input, the output is a join of well-formed lines, each of
    which the line filter keeps. *)
Lemma preprocess_text_shape self x :
  exists K, lines_ok K = true /\ forallb (keep_line self) K = true
            /\ preprocess self x = join_nl K.
Proof.
  unfold preprocess_text.
  match goal with
  | |- context [remove_mid_sentence_newlines _ _ ?f] =>
      destruct (remove_mid_sentence_newlines_shape decimal_table alnum_table f)
        as (t & Hseg & Hd)
  end.
  exact (remove_empty_lines_shape self _ _ Hseg Hd).
Qed.

Lemma preprocess_text_segmented self x : segmented (preprocess self x) = true.
Proof.
  destruct (preprocess_text_shape self x) as (K & HK & _ & ->).
  now apply join_segmented.
Qed.

(** The lines of the output are the kept lines, or one empty line. *)
Lemma preprocess_text_lines self x :
  preprocess self x = [] \/
  (lines_ok (split_nl (preprocess self x)) = true
   /\ forallb (keep_line self) (split_nl (preprocess self x)) = true).
Proof.
  destruct (preprocess_text_shape self x) as (K & HK & Hkeep & ->).
  destruct K as [|l K]; [left; reflexivity|right].
  rewrite split_join; [auto | discriminate | now apply lines_ok_no_nl].
Qed.

End Output.

(** ** What segmented text cannot contain *)

Lemma segmented_no_newline_run s : segmented s = true -> ~ has_newline_run 2 s.
Proof.
  unfold segmented. intros H (u & v & ->). apply andb_true_iff in H as [H _].
  rewrite chain_app in H. apply andb_true_iff in H as [_ H].
  cbn [repeat app chain] in H.
  apply andb_true_iff in H as [_ H]. apply andb_true_iff in H as [H _].
  vm_compute in H. discriminate.
Qed.

Lemma newline_run_shorter s : has_newline_run 3 s -> has_newline_run 2 s.
Proof. intros (u & v & ->). exists u, (NL :: v). reflexivity. Qed.

Lemma segmented_no_blank_run s : segmented s = true -> ~ has_blank_run3 s.
Proof.
  unfold segmented. intros H (u & a & b & c & v & -> & Ha & Hb & _).
  apply andb_true_iff in H as [H _].
  rewrite chain_app in H. apply andb_true_iff in H as [_ H].
  cbn [chain] in H.
  apply andb_true_iff in H as [_ H]. apply andb_true_iff in H as [H _].
  unfold R_segmented in H.
  replace (b =? NL) with false in H by (symmetry; char_bool).
  rewrite (blank_is_space _ Hb) in H. cbn [opt_test] in H.
  rewrite (blank_is_space _ Ha) in H. cbn [negb andb] in H.
  now rewrite andb_false_r in H.
Qed.

Lemma line_ok_no_trailing_blank l : line_ok l = true -> trailing_blank l = false.
Proof.
  unfold line_ok, segmented, ends_nonspace, trailing_blank. intros H.
  apply andb_true_iff in H as [H _]. apply andb_true_iff in H as [H _].
  apply andb_true_iff in H as [_ H]. apply negb_true_iff in H.
  destruct (last_opt None l) as [c|]; [|reflexivity]. simpl in *.
  destruct (is_blank c) eqn:E; [|reflexivity].
  now rewrite (blank_is_space _ E) in H.
Qed.

Lemma lines_ok_each ls : lines_ok ls = true -> forallb line_ok ls = true.
Proof.
  induction ls as [|l ls IH]; [reflexivity|].
  cbn [lines_ok forallb]. intros H.
  apply andb_true_iff in H as [H Hls]. apply andb_true_iff in H as [Hl _].
  now rewrite Hl, (IH Hls).
Qed.

(** ** Newline runs: Step 5 is invisible to Step 5.5 *)

Lemma drop_while_idem p s : drop_while p (drop_while p s) = drop_while p s.
Proof.
  induction s as [|c s IH]; simpl; [reflexivity|].
  destruct (p c) eqn:E; [exact IH | simpl; now rewrite E].
Qed.

Lemma drop_while_app_all p a s :
  forallb p a = true -> drop_while p (a ++ s) = drop_while p s.
Proof.
  induction a as [|c a IH]; simpl; [reflexivity|]. intros H.
  apply andb_true_iff in H as [Hc Ha]. now rewrite Hc, (IH Ha).
Qed.

Lemma newlines_to_space_other c s :
  is_nl c = false ->
  re_sub (m_run 1 is_nl [SP]) (c :: s) = c :: re_sub (m_run 1 is_nl [SP]) s.
Proof.
  intros E. rewrite re_sub_cons by auto with scan.
  unfold m_run. cbn [take_while]. now rewrite E.
Qed.

Lemma newlines_to_space_decomp s :
  re_sub (m_run 1 is_nl [SP]) s =
  (if starts_nl s then [SP] else []) ++ re_sub (m_run 1 is_nl [SP]) (drop_while is_nl s).
Proof.
  destruct s as [|c s]; [reflexivity|]. cbn [starts_nl drop_while].
  destruct (is_nl c) eqn:Ec; [|reflexivity].
  rewrite re_sub_cons by auto with scan.
  destruct (m_run 1 is_nl [SP] None (c :: s)) as [[len rep]|] eqn:E.
  - apply run_match_head in E as (Hc & -> & ->).
    cbn [Nat.pred]. now rewrite skipn_take_while.
  - apply run1_nomatch_head in E. congruence.
Qed.

Lemma newline_runs_collapse k rep x :
  forallb is_nl rep = true -> rep <> [] ->
  re_sub (m_run 1 is_nl [SP]) (re_sub (m_run (S k) is_nl rep) x)
  = re_sub (m_run 1 is_nl [SP]) x.
Proof.
  intros Hrep Hne.
  set (f := re_sub (m_run 1 is_nl [SP])).
  set (g := re_sub (m_run (S k) is_nl rep)).
  assert (H : f (drop_while is_nl (g x)) = f (drop_while is_nl x)
              /\ starts_nl (g x) = starts_nl x).
  { unfold g. pattern x, (re_sub (m_run (S k) is_nl rep) x).
    apply re_sub_ind; [auto with scan | split; reflexivity | |]; clear x; fold g.
    - intros c s _ [IHa IHb]. split; [|reflexivity]. cbn [drop_while].
      destruct (is_nl c) eqn:Ec; [exact IHa|].
      assert (Hfg : f (g s) = f s).
      { unfold f. rewrite (newlines_to_space_decomp (g s)), (newlines_to_space_decomp s).
        fold f. now rewrite IHa, IHb. }
      unfold f. rewrite 2 newlines_to_space_other by exact Ec. fold f. now rewrite Hfg.
    - intros c s len r Hm [IHa _].
      apply run_match_head in Hm as (Hc & -> & ->). cbn [Nat.pred] in *.
      rewrite skipn_take_while in *. split.
      + rewrite drop_while_app_all by exact Hrep. rewrite IHa.
        rewrite drop_while_idem. simpl. now rewrite Hc.
      + simpl. rewrite Hc. destruct rep as [|r0 rep]; [congruence|].
        simpl in Hrep |- *. now apply andb_true_iff in Hrep as [-> _]. }
  destruct H as [Ha Hb]. unfold f.
  rewrite (newlines_to_space_decomp (g x)), (newlines_to_space_decomp x).
  fold f. now rewrite Ha, Hb.
Qed.

Lemma remove_excessive_newlines_invisible self x :
  re_sub (m_run 1 is_nl [SP]) (remove_excessive_newlines self x)
  = re_sub (m_run 1 is_nl [SP]) x.
Proof.
  unfold remove_excessive_newlines.
  destruct (preserve_paragraphs self);
    apply newline_runs_collapse; (reflexivity || discriminate).
Qed.

(** ** Running the late stages on segmented text *)

(** A scan that replaces single characters is a map. *)
Lemma sub_from_map m (f : N -> N) (Inv : option N -> str -> Prop) :
  (forall prev c s, Inv prev (c :: s) ->
     Inv (Some c) s
     /\ (m prev (c :: s) = Some (1%nat, [f c])
         \/ (m prev (c :: s) = None /\ f c = c))) ->
  forall s prev, Inv prev s -> sub_from m 0 prev s = map f s.
Proof.
  intros Hm s; induction s as [|c s IH]; intros prev H; [reflexivity|].
  destruct (Hm _ _ _ H) as [Hnext [E | [E Hf]]]; simpl; rewrite E; simpl.
  - now rewrite (IH _ Hnext).
  - now rewrite (IH _ Hnext), Hf.
Qed.

Lemma sub_from_id m (Inv : option N -> str -> Prop) :
  (forall prev c s, Inv prev (c :: s) ->
     Inv (Some c) s
     /\ (m prev (c :: s) = Some (1%nat, [c]) \/ m prev (c :: s) = None)) ->
  forall s prev, Inv prev s -> sub_from m 0 prev s = s.
Proof.
  intros Hm s prev H. rewrite <- (map_id s) at 2.
  apply (sub_from_map m (fun c => c) Inv); [|exact H].
  intros p c r Hi. destruct (Hm _ _ _ Hi) as [Hn [E|E]]; auto.
Qed.

Lemma seg_from_cons prev c s :
  seg_from prev (c :: s) = true ->
  R_segmented prev c = true /\ seg_from (Some c) s = true.
Proof.
  unfold seg_from. simpl. intros H. apply andb_true_iff in H as [H1 H2].
  apply andb_true_iff in H1 as [Hc Hs]. now rewrite Hc, Hs, H2.
Qed.

(** The three kinds of characters in segmented text. *)
Lemma R_segmented_cases prev c :
  R_segmented prev c = true ->
  (c = NL /\ opt_test is_sentence_end prev = true)
  \/ (c = SP /\ opt_test isspace prev = false
      /\ opt_test is_sentence_end prev = false /\ prev <> None)
  \/ (isspace c = false /\ c <> NL /\ c <> SP).
Proof.
  unfold R_segmented. destruct (c =? NL) eqn:En.
  - apply N.eqb_eq in En. auto.
  - destruct (isspace c) eqn:Es.
    + intros H. apply andb_true_iff in H as [Hsp Hp]. apply N.eqb_eq in Hsp.
      right; left. destruct prev as [p|]; [|discriminate]. simpl in *.
      apply andb_true_iff in Hp as [Hp1 Hp2].
      apply negb_true_iff in Hp1, Hp2. repeat split; auto. discriminate.
    + intros _. right; right. repeat split; auto.
      * now apply N.eqb_neq.
      * intros ->. discriminate.
Qed.

(** After whitespace comes a character that is not whitespace. *)
Lemma R_segmented_after_space c d :
  isspace c = true -> R_segmented (Some c) d = true ->
  isspace d = false /\ d <> NL /\ d <> SP.
Proof.
  intros Hc H. apply R_segmented_cases in H as [[-> H]|[(-> & H & _)|H]].
  - simpl in H. now rewrite (sentence_end_not_space _ H) in Hc.
  - simpl in H. congruence.
  - exact H.
Qed.

Lemma seg_from_after_space c s :
  isspace c = true -> seg_from (Some c) s = true ->
  exists d s', s = d :: s' /\ isspace d = false /\ d <> NL /\ d <> SP.
Proof.
  intros Hc H. destruct s as [|d s'].
  - unfold seg_from in H. simpl in H. now rewrite Hc in H.
  - apply seg_from_cons in H as [H _]. exists d, s'. split; [reflexivity|].
    now apply R_segmented_after_space with (c := c).
Qed.

Lemma blanks_fixed s prev :
  seg_from prev s = true -> sub_from (m_run 1 is_blank [SP]) 0 prev s = s.
Proof.
  apply (sub_from_id _ (fun p r => seg_from p r = true)). clear.
  intros prev c s H. apply seg_from_cons in H as [Hc Hs]. split; [exact Hs|].
  unfold m_run. cbn [take_while]. destruct (is_blank c) eqn:Eb; [left|now right].
  apply R_segmented_cases in Hc as [[-> _]|[(-> & _)|(Hc & _)]];
    [discriminate Eb | | now rewrite (blank_is_space _ Eb) in Hc].
  destruct (seg_from_after_space SP s eq_refl Hs) as (d & s' & -> & Hd & _).
  cbn [take_while]. destruct (is_blank d) eqn:Ed; [|reflexivity].
  now rewrite (blank_is_space _ Ed) in Hd.
Qed.

Lemma line_endings_fixed s prev :
  seg_from prev s = true -> sub_from m_line_ending 0 prev s = s.
Proof.
  apply (sub_from_id _ (fun p r => seg_from p r = true)). clear.
  intros prev c s H. apply seg_from_cons in H as [Hc Hs]. split; [exact Hs|].
  right. unfold m_line_ending. destruct (c =? CR) eqn:E; [|reflexivity].
  exfalso. apply N.eqb_eq in E. subst c.
  apply R_segmented_cases in Hc as [[Hc _]|[(Hc & _)|(Hc & _)]]; discriminate.
Qed.

Lemma trailing_blanks_fixed s prev :
  seg_from prev s = true -> sub_from m_trailing_blanks 0 prev s = s.
Proof.
  apply (sub_from_id _ (fun p r => seg_from p r = true)). clear.
  intros prev c s H. apply seg_from_cons in H as [Hc Hs]. split; [exact Hs|].
  right. unfold m_trailing_blanks. cbn [take_while drop_while].
  destruct (is_blank c) eqn:Eb; [|reflexivity].
  apply R_segmented_cases in Hc as [[-> _]|[(-> & _)|(Hc & _)]];
    [discriminate Eb | | now rewrite (blank_is_space _ Eb) in Hc].
  destruct (seg_from_after_space SP s eq_refl Hs) as (d & s' & -> & Hd & Hnl & _).
  cbn [take_while drop_while]. destruct (is_blank d) eqn:Ed.
  - now rewrite (blank_is_space _ Ed) in Hd.
  - simpl. apply N.eqb_neq in Hnl. now rewrite Hnl.
Qed.

Lemma normalize_whitespace_fixed y : segmented y = true -> normalize_whitespace y = y.
Proof.
  intros H. change (seg_from None y = true) in H.
  unfold normalize_whitespace, re_sub.
  now rewrite (blanks_fixed _ _ H), (line_endings_fixed _ _ H), (trailing_blanks_fixed _ _ H).
Qed.

Lemma newline_run_short s prev c :
  seg_from prev (c :: s) = true -> (length (take_while is_nl (c :: s)) <= 1)%nat.
Proof.
  intros H. apply seg_from_cons in H as [_ Hs]. cbn [take_while].
  destruct (is_nl c) eqn:E; [|simpl; lia].
  destruct (seg_from_after_space c s (nl_is_space _ E) Hs) as (d & s' & -> & _ & Hd & _).
  cbn [take_while]. unfold is_nl at 1. apply N.eqb_neq in Hd. rewrite Hd. simpl. lia.
Qed.

Lemma remove_excessive_newlines_fixed self y :
  segmented y = true -> remove_excessive_newlines self y = y.
Proof.
  intros H. change (seg_from None y = true) in H.
  assert (Hk : forall k rep, re_sub (m_run (S (S k)) is_nl rep) y = y).
  { intros k rep. unfold re_sub.
    apply (sub_from_id _ (fun p r => seg_from p r = true)); [|exact H].
    intros prev c s Hi. split; [now apply seg_from_cons in Hi|]. right.
    pose proof (newline_run_short _ _ _ Hi) as Hlen. unfold m_run.
    destruct (length (take_while is_nl (c :: s))) as [|[|n]]; [reflexivity..|lia]. }
  unfold remove_excessive_newlines. destruct (preserve_paragraphs self); apply Hk.
Qed.

Lemma newlines_to_space_segmented s prev :
  seg_from prev s = true -> sub_from (m_run 1 is_nl [SP]) 0 prev s = map unbreak s.
Proof.
  apply (sub_from_map _ unbreak (fun p r => seg_from p r = true)). clear.
  intros prev c s H. pose proof (newline_run_short _ _ _ H) as Hlen.
  apply seg_from_cons in H as [_ Hs]. split; [exact Hs|].
  unfold m_run, unbreak. cbn [take_while] in *. fold (is_nl c).
  destruct (is_nl c) eqn:E; [left|now right].
  cbn [length] in *.
  destruct (length (take_while is_nl s)); [reflexivity | lia].
Qed.

Lemma unbreak_space c : isspace (unbreak c) = isspace c.
Proof.
  unfold unbreak. destruct (c =? NL) eqn:E; [|reflexivity].
  now rewrite (nl_is_space _ E).
Qed.

Lemma unbreak_chain s : forall prev,
  chain R_segmented prev s = true ->
  chain R_tidy (option_map unbreak prev) (map unbreak s) = true.
Proof.
  induction s as [|c s IH]; intros prev H; [reflexivity|].
  simpl in H. apply andb_true_iff in H as [Hc Hs]. cbn [map chain].
  pose proof (IH (Some c) Hs) as IH'. cbn [option_map] in IH'.
  rewrite IH', andb_true_r.
  unfold R_tidy. rewrite unbreak_space.
  apply R_segmented_cases in Hc as [[-> Hp]|[(-> & Hp & _ & Hn)|(Hc & _)]].
  - destruct prev as [p|]; [|discriminate]. simpl in *.
    now rewrite unbreak_space, (sentence_end_not_space _ Hp).
  - destruct prev as [p|]; [|congruence]. simpl in *.
    now rewrite unbreak_space, Hp.
  - now rewrite Hc.
Qed.

Lemma unbreak_last s : forall prev,
  last_opt (option_map unbreak prev) (map unbreak s) = option_map unbreak (last_opt prev s).
Proof. induction s as [|c s IH]; intros prev; [reflexivity|]. apply (IH (Some c)). Qed.

Lemma unbreak_tidy y : segmented y = true -> tidy (map unbreak y) = true.
Proof.
  unfold segmented, tidy. intros H. apply andb_true_iff in H as [Hc He].
  pose proof (unbreak_chain y None Hc) as Hz. cbn [option_map] in Hz.
  rewrite Hz. unfold ends_nonspace in *.
  pose proof (unbreak_last y None) as Hl. cbn [option_map] in Hl. rewrite Hl.
  destruct (last_opt None y); [|reflexivity].
  simpl in *. now rewrite unbreak_space.
Qed.

Lemma tidy_head c s : chain R_tidy None (c :: s) = true -> isspace c = false.
Proof.
  simpl. intros H. apply andb_true_iff in H as [H _]. unfold R_tidy in H.
  destruct (isspace c); [|reflexivity]. now rewrite andb_false_r in H.
Qed.

Lemma tidy_strip z : tidy z = true -> strip z = z.
Proof.
  unfold tidy. intros H. apply andb_true_iff in H as [Hc He].
  apply strip_fixed; [|exact He].
  destruct z as [|c z]; [reflexivity|]. exact (tidy_head _ _ Hc).
Qed.

Lemma spaces_fixed z prev :
  chain R_tidy prev z = true -> sub_from (m_run 1 isspace [SP]) 0 prev z = z.
Proof.
  apply (sub_from_id _ (fun p r => chain R_tidy p r = true)). clear.
  intros prev c s H. simpl in H. apply andb_true_iff in H as [Hc Hs].
  split; [exact Hs|]. unfold m_run. cbn [take_while].
  destruct (isspace c) eqn:Ec; [left|now right].
  unfold R_tidy in Hc. rewrite Ec in Hc. apply andb_true_iff in Hc as [Hc _].
  apply N.eqb_eq in Hc. subst c.
  destruct s as [|d s]; [reflexivity|].
  simpl in Hs. apply andb_true_iff in Hs as [Hd _]. unfold R_tidy in Hd.
  cbn [take_while]. destruct (isspace d); [|reflexivity].
  simpl in Hd. now rewrite andb_false_r in Hd.
Qed.

(** Breaking sentences again restores the newlines that were turned into
    spaces. *)
Lemma rebreak n : forall s prev,
  (length s <= n)%nat -> chain R_segmented prev s = true -> starts_nl s = false ->
  re_sub m_sentence_break (map unbreak s) = s.
Proof.
  induction n as [|n IH]; intros s prev Hlen Hch Hnl.
  - destruct s; [reflexivity | simpl in Hlen; lia].
  - destruct s as [|c s]; [reflexivity|].
    simpl in Hnl, Hlen. cbn [chain] in Hch.
    apply andb_true_iff in Hch as [Hc Hs].
    cbn [map]. rewrite re_sub_cons by auto with scan.
    assert (Hu : unbreak c = c) by (unfold unbreak; fold (is_nl c); now rewrite Hnl).
    rewrite Hu. unfold m_sentence_break at 1.
    destruct (is_sentence_end c) eqn:Ese.
    + destruct s as [|d s]; [reflexivity|].
      cbn [chain] in Hs. apply andb_true_iff in Hs as [Hd Hs'].
      pose proof Hd as Hd0.
      apply R_segmented_cases in Hd as [[-> _]|[(-> & _ & Hp & _)|(Hd & Hdn & _)]].
      * assert (Hrun : take_while isspace (map unbreak s) = []).
        { destruct s as [|e s]; [reflexivity|]. cbn [chain] in Hs'.
          apply andb_true_iff in Hs' as [He _].
          apply (R_segmented_after_space NL) in He as (He & _); [|reflexivity].
          cbn [map take_while]. now rewrite unbreak_space, He. }
        cbn [map take_while]. change (isspace (unbreak NL)) with true.
        cbn iota. rewrite Hrun. cbn [length Nat.leb Nat.pred skipn app].
        rewrite (IH s (Some NL)); [reflexivity | simpl in Hlen; lia | exact Hs' |].
        destruct s as [|e s]; [reflexivity|]. cbn [chain] in Hs'.
        apply andb_true_iff in Hs' as [He _].
        apply (R_segmented_after_space NL) in He as (_ & He & _); [|reflexivity].
        simpl. now apply N.eqb_neq.
      * simpl in Hp. congruence.
      * cbn [map take_while]. rewrite unbreak_space, Hd. cbn [length Nat.leb].
        change (unbreak d :: map unbreak s) with (map unbreak (d :: s)).
        rewrite (IH (d :: s) (Some c)); [reflexivity | simpl in *; lia | |].
        -- cbn [chain]. now rewrite Hd0, Hs'.
        -- simpl. now apply N.eqb_neq.
    + rewrite (IH s (Some c)); [reflexivity | lia | exact Hs |].
      destruct s as [|d s]; [reflexivity|]. cbn [chain] in Hs.
      apply andb_true_iff in Hs as [Hd _]. simpl. unfold is_nl.
      destruct (d =? NL) eqn:E; [|reflexivity].
      unfold R_segmented in Hd. rewrite E in Hd. simpl in Hd. congruence.
Qed.

Lemma segmented_starts s : chain R_segmented None s = true -> starts_nl s = false.
Proof.
  destruct s as [|c s]; [reflexivity|]. intros H.
  apply segmented_head in H. simpl. unfold is_nl.
  destruct (c =? NL) eqn:E; [|reflexivity]. now rewrite (nl_is_space _ E) in H.
Qed.

Section LateStages.

Variable decimal_table : N -> bool.
Variable alnum_table : N -> bool.

(** On segmented text Step 5.5 only doubles newlines. *)
Lemma remove_mid_sentence_newlines_segmented y :
  segmented y = true ->
  doubled y (remove_mid_sentence_newlines decimal_table alnum_table y).
Proof.
  intros H. pose proof H as Hseg. change (seg_from None y = true) in H.
  unfold segmented in Hseg. apply andb_true_iff in Hseg as [Hch _].
  unfold remove_mid_sentence_newlines.
  change (re_sub (m_run 1 is_nl [SP]) y) with (sub_from (m_run 1 is_nl [SP]) 0 None y).
  rewrite (newlines_to_space_segmented _ _ H).
  pose proof (unbreak_tidy y (proj2 (andb_true_iff _ _) (conj Hch
                (proj2 (proj1 (andb_true_iff _ _) H))))) as Ht.
  assert (Hz : chain R_tidy None (map unbreak y) = true)
    by (unfold tidy in Ht; now apply andb_true_iff in Ht as [Ht _]).
  change (re_sub (m_run 1 isspace [SP]) (map unbreak y))
    with (sub_from (m_run 1 isspace [SP]) 0 None (map unbreak y)).
  rewrite (spaces_fixed _ _ Hz), (tidy_strip _ Ht).
  rewrite (rebreak (length y) y None (le_n _) Hch (segmented_starts _ Hch)).
  change (re_sub (m_abbreviation (isword alnum_table)) y)
    with (sub_from (m_abbreviation (isword alnum_table)) 0 None y).
  rewrite abbreviation_noop by exact Hch.
  change (re_sub (m_decimal (isdecimal decimal_table)) y)
    with (sub_from (m_decimal (isdecimal decimal_table)) 0 None y).
  rewrite decimal_noop by exact Hch.
  change (re_sub m_spaces_nl y) with (sub_from m_spaces_nl 0 None y).
  rewrite spaces_nl_noop by exact Hch.
  apply paragraph_marker_doubled.
Qed.

(** Steps 4 to 6 and the final strip leave a join of kept, well-formed
    lines as it is. *)
Lemma late_stages_fixed self K :
  lines_ok K = true -> forallb (keep_line self) K = true ->
  strip (remove_empty_lines self
           (remove_mid_sentence_newlines decimal_table alnum_table
              (remove_excessive_newlines self
                 (normalize_whitespace (join_nl K))))) = join_nl K.
Proof.
  intros HK Hkeep. pose proof (join_segmented K HK) as Hseg.
  rewrite (normalize_whitespace_fixed _ Hseg).
  rewrite (remove_excessive_newlines_fixed self _ Hseg).
  pose proof (remove_mid_sentence_newlines_segmented _ Hseg) as Hd.
  unfold remove_empty_lines.
  rewrite (doubled_filter (keep_line self) _ _ (keep_line_nil self) Hd).
  destruct K as [|l K]; [reflexivity|].
  rewrite split_join; [| discriminate | now apply lines_ok_no_nl].
  rewrite (filter_all _ _ Hkeep). now apply segmented_strip.
Qed.

End LateStages.

(** ** Characters that the stages cannot introduce *)

Lemma forallb_app_true (P : N -> bool) a b :
  forallb P a = true -> forallb P b = true -> forallb P (a ++ b) = true.
Proof. intros Ha Hb. now rewrite forallb_app, Ha, Hb. Qed.

Lemma forallb_firstn (P : N -> bool) k s :
  forallb P s = true -> forallb P (firstn k s) = true.
Proof.
  revert k; induction s as [|c s IH]; intros [|k] H; simpl in *; try reflexivity.
  apply andb_true_iff in H as [Hc Hs]. now rewrite Hc, (IH k Hs).
Qed.

Lemma forallb_drop_while (P p : N -> bool) s :
  forallb P s = true -> forallb P (drop_while p s) = true.
Proof.
  induction s as [|c s IH]; [reflexivity|]. intros H. simpl.
  destruct (p c); [|exact H]. simpl in H. apply andb_true_iff in H as [_ H]. auto.
Qed.

Lemma forallb_rev (P : N -> bool) s : forallb P (rev s) = forallb P s.
Proof.
  induction s as [|c s IH]; [reflexivity|]. simpl.
  now rewrite forallb_app, IH, andb_comm; simpl; rewrite andb_true_r.
Qed.

Lemma forallb_strip (P : N -> bool) s : forallb P s = true -> forallb P (strip s) = true.
Proof.
  intros H. unfold strip, rstrip, lstrip. rewrite forallb_rev.
  apply forallb_drop_while. rewrite forallb_rev. now apply forallb_drop_while.
Qed.

Lemma starts_with_forallb (P : N -> bool) a : forall s,
  starts_with a s = true -> forallb P s = true -> forallb P a = true.
Proof.
  induction a as [|x a IH]; intros [|c s] Hs HP; simpl in *; try reflexivity;
    try discriminate.
  apply andb_true_iff in Hs as [Hx Hs]. apply andb_true_iff in HP as [Hc HP].
  apply N.eqb_eq in Hx. subst. now rewrite Hc, (IH _ Hs HP).
Qed.

(** A scan whose replacements are made of [P]-characters keeps a text of
    [P]-characters so. *)
Lemma sub_from_forallb (P : N -> bool) m :
  (forall prev s len rep, m prev s = Some (len, rep) ->
     forallb P s = true -> forallb P rep = true) ->
  forall s k prev, forallb P s = true -> forallb P (sub_from m k prev s) = true.
Proof.
  intros Hm s; induction s as [|c s IH]; intros k prev H; [reflexivity|].
  pose proof H as H0. simpl in H. apply andb_true_iff in H as [Hc Hs].
  simpl. destruct k; [|now apply IH].
  destruct (m prev (c :: s)) as [[len rep]|] eqn:E.
  - apply forallb_app_true; [exact (Hm _ _ _ _ E H0) | now apply IH].
  - simpl. now rewrite Hc, IH.
Qed.

Lemma replace_forallb (P : N -> bool) old new s :
  forallb P new = true -> forallb P s = true -> forallb P (replace old new s) = true.
Proof.
  intros Hn. apply sub_from_forallb. intros prev r len rep.
  unfold m_literal. destruct (starts_with old r); [|discriminate].
  now intros [= _ <-] _.
Qed.

Section Insertions.

Variable P : N -> bool.
Hypothesis P_SP : P SP = true.
Hypothesis P_NL : P NL = true.
Hypothesis P_DOT : P DOT = true.

Lemma run_forallb k p rep s :
  forallb P rep = true -> forallb P s = true ->
  forallb P (re_sub (m_run k p rep) s) = true.
Proof.
  intros Hr. apply sub_from_forallb. intros prev r len rp. unfold m_run.
  destruct (Nat.leb k _); [|discriminate]. now intros [= _ <-] _.
Qed.

Lemma normalize_whitespace_forallb s :
  forallb P s = true -> forallb P (normalize_whitespace s) = true.
Proof.
  intros H. unfold normalize_whitespace.
  apply sub_from_forallb.
  { intros prev r len rep. unfold m_trailing_blanks.
    destruct (Nat.leb 1 _); [|discriminate].
    destruct (drop_while is_blank r) as [|c r']; [now intros [= _ <-]|].
    destruct (c =? NL); [now intros [= _ <-] | discriminate]. }
  apply sub_from_forallb.
  { intros prev r len rep. unfold m_line_ending.
    destruct r as [|c r]; [discriminate|]. destruct (c =? CR); [|discriminate].
    assert (forallb P [NL] = true) by (simpl; now rewrite P_NL).
    destruct r as [|d r]; [now intros [= _ <-]|].
    destruct (d =? NL); now intros [= _ <-]. }
  apply run_forallb; [simpl; now rewrite P_SP | exact H].
Qed.

Lemma remove_excessive_newlines_forallb self s :
  forallb P s = true -> forallb P (remove_excessive_newlines self s) = true.
Proof.
  intros H. unfold remove_excessive_newlines.
  destruct (preserve_paragraphs self); apply run_forallb; auto;
    simpl; now rewrite P_NL.
Qed.

Lemma forallb_split s :
  forallb P s = true -> forallb (forallb P) (split_nl s) = true.
Proof.
  induction s as [|c s IH]; [reflexivity|]. intros H. simpl in H.
  apply andb_true_iff in H as [Hc Hs]. specialize (IH Hs). simpl.
  destruct (c =? NL); [exact IH|].
  destruct (split_nl s) as [|l ls]; simpl in *; [now rewrite Hc|].
  now rewrite Hc.
Qed.

Lemma forallb_join ls :
  forallb (forallb P) ls = true -> forallb P (join_nl ls) = true.
Proof.
  induction ls as [|l ls IH]; [reflexivity|]. intros H. simpl in H.
  apply andb_true_iff in H as [Hl Hls]. specialize (IH Hls).
  destruct ls as [|l' ls']; [exact Hl|].
  change (join_nl (l :: l' :: ls')) with (l ++ NL :: join_nl (l' :: ls')).
  apply forallb_app_true; [exact Hl|].
  change (P NL && forallb P (join_nl (l' :: ls')) = true). now rewrite P_NL, IH.
Qed.

Lemma forallb_filter_lines (f : str -> bool) ls :
  forallb (forallb P) ls = true -> forallb (forallb P) (filter f ls) = true.
Proof.
  induction ls as [|l ls IH]; [reflexivity|]. intros H. simpl in H.
  apply andb_true_iff in H as [Hl Hls]. simpl.
  destruct (f l); simpl; [now rewrite Hl, IH | now apply IH].
Qed.

Lemma remove_empty_lines_forallb self s :
  forallb P s = true -> forallb P (remove_empty_lines self s) = true.
Proof.
  intros H. unfold remove_empty_lines.
  now apply forallb_join, forallb_filter_lines, forallb_split.
Qed.

Variable decimal_table : N -> bool.
Variable alnum_table : N -> bool.

Lemma remove_mid_sentence_newlines_forallb s :
  forallb P s = true ->
  forallb P (remove_mid_sentence_newlines decimal_table alnum_table s) = true.
Proof.
  intros H. unfold remove_mid_sentence_newlines.
  apply sub_from_forallb.
  { intros prev r len rep Hm Hr.
    rewrite (stateless_paragraph_marker _ prev None) in Hm.
    destruct r as [|c r]; [discriminate|].
    apply paragraph_marker_match in Hm as (k & -> & _ & ->).
    simpl in Hr |- *. rewrite P_NL in *. simpl. now apply forallb_firstn. }
  apply sub_from_forallb.
  { intros prev r len rep. unfold m_spaces_nl.
    destruct (Nat.leb 1 _); [|discriminate].
    destruct (drop_while is_sp r) as [|c r']; [discriminate|].
    destruct (c =? NL); [|discriminate]. intros [= _ <-] _.
    simpl. now rewrite P_NL. }
  apply sub_from_forallb.
  { intros prev r len rep. unfold m_decimal.
    destruct r as [|a [|n [|b r]]]; try discriminate.
    destruct (_ && _); [|discriminate]. intros [= _ <-] Hr.
    simpl in *. apply andb_true_iff in Hr as [Ha Hr].
    apply andb_true_iff in Hr as [_ Hr]. apply andb_true_iff in Hr as [Hb _].
    now rewrite Ha, Hb, P_DOT. }
  apply sub_from_forallb.
  { intros prev r len rep. unfold m_abbreviation.
    destruct (word_boundary _ _ _); [|discriminate].
    destruct (first_alternative abbreviations r) as [a|] eqn:E; [|discriminate].
    intros [= _ <-] Hr. apply first_alternative_found in E as [_ E].
    pose proof (starts_with_forallb P _ _ E Hr) as Ha.
    rewrite forallb_app in Ha. apply andb_true_iff in Ha as [Ha _].
    apply forallb_app_true; [exact Ha|]. simpl. now rewrite P_DOT, P_SP. }
  apply sub_from_forallb.
  { intros prev r len rep. unfold m_sentence_break.
    destruct r as [|c r]; [discriminate|]. destruct (is_sentence_end c); [|discriminate].
    destruct (Nat.leb 1 _); [|discriminate]. intros [= _ <-] Hr.
    simpl in *. apply andb_true_iff in Hr as [Hc _]. now rewrite Hc, P_NL. }
  apply forallb_strip.
  apply run_forallb; [simpl; now rewrite P_SP|].
  apply run_forallb; [simpl; now rewrite P_SP|exact H].
Qed.

End Insertions.

(** ** Steps 3, 7 and 8 and the characters of the output *)

Lemma remove_control_characters_filter s :
  remove_control_characters s = filter printable s.
Proof. apply re_sub_class_delete. Qed.

Lemma remove_control_characters_printable s :
  forallb printable (remove_control_characters s) = true.
Proof.
  rewrite remove_control_characters_filter.
  induction s as [|c s IH]; [reflexivity|]. simpl.
  destruct (printable c) eqn:E; [simpl; now rewrite E|exact IH].
Qed.

Lemma remove_control_characters_fixed s :
  forallb printable s = true -> remove_control_characters s = s.
Proof.
  rewrite remove_control_characters_filter.
  induction s as [|c s IH]; [reflexivity|]. simpl. intros H.
  apply andb_true_iff in H as [Hc Hs]. now rewrite Hc, (IH Hs).
Qed.

Lemma fix_common_encoding_issues_printable s :
  forallb printable s = true -> forallb printable (fix_common_encoding_issues s) = true.
Proof.
  unfold fix_common_encoding_issues.
  assert (Htab : forallb (fun kv => forallb printable (snd kv)) replacements = true)
    by reflexivity.
  revert s Htab. generalize replacements as tab.
  induction tab as [|[old new] tab IH]; intros s Htab H; [exact H|].
  simpl in Htab. apply andb_true_iff in Htab as [Hnew Htab].
  simpl. apply IH; [exact Htab|]. now apply replace_forallb.
Qed.

Lemma map_fixed (f : N -> N) s :
  (forall c, In c s -> f c = c) -> map f s = s.
Proof.
  induction s as [|c s IH]; [reflexivity|]. intros H. simpl.
  rewrite (H c (or_introl eq_refl)), IH; [reflexivity|].
  intros d Hd. apply H. now right.
Qed.

Lemma requote q s :
  re_sub (m_class (in_class [q; q; q]) [q]) s = s.
Proof.
  rewrite re_sub_class_map. apply map_fixed. intros c _.
  unfold in_class. simpl. destruct (c =? q) eqn:E; [|reflexivity].
  now apply N.eqb_eq in E.
Qed.

Lemma replace_absent x new s :
  forallb (fun c => negb (c =? x)) s = true -> replace [x] new s = s.
Proof.
  unfold replace. induction s as [|c s IH]; [reflexivity|]. intros H.
  simpl in H. apply andb_true_iff in H as [Hc Hs]. apply negb_true_iff in Hc.
  rewrite re_sub_cons by auto with scan. unfold m_literal at 1. cbn [starts_with].
  rewrite N.eqb_sym, Hc. simpl. now rewrite (IH Hs).
Qed.

Lemma replace_gone x new s :
  forallb (fun c => negb (c =? x)) new = true ->
  forallb (fun c => negb (c =? x)) (replace [x] new s) = true.
Proof.
  intros Hnew. unfold replace.
  pattern s, (re_sub (m_literal [x] new) s).
  apply re_sub_ind; [auto with scan | reflexivity | |]; clear s.
  - intros c s Hm IH. unfold m_literal in Hm. cbn [starts_with] in Hm.
    rewrite andb_true_r in Hm. simpl. rewrite IH, andb_true_r.
    rewrite N.eqb_sym. now destruct (x =? c).
  - intros c s len rep Hm IH. unfold m_literal in Hm.
    destruct (starts_with [x] (c :: s)); [|discriminate].
    injection Hm as _ <-. now apply forallb_app_true.
Qed.

Lemma clean_special_characters_plain s :
  forallb printable s = true -> forallb plain (clean_special_characters s) = true.
Proof.
  intros H. unfold clean_special_characters. rewrite 2 requote.
  rewrite re_sub_class_map.
  set (t := map _ s).
  assert (Ht : forallb (fun c => printable c && negb (in_class [EN_DASH; EM_DASH] c)) t
               = true).
  { subst t. rewrite forallb_forall in H |- *. intros c Hc.
    apply in_map_iff in Hc as (d & <- & Hd). specialize (H d Hd).
    destruct (in_class [EN_DASH; EM_DASH] d) eqn:E; [reflexivity|].
    now rewrite H, E. }
  pose proof (replace_forallb
                (fun c => printable c && negb (in_class [EN_DASH; EM_DASH] c))
                [ELLIPSIS] [DOT; DOT; DOT] t eq_refl Ht) as H1.
  pose proof (replace_gone ELLIPSIS [DOT; DOT; DOT] t eq_refl) as H2.
  rewrite forallb_forall in H1, H2 |- *. intros c Hc.
  unfold plain. now rewrite (H1 c Hc), (H2 c Hc).
Qed.

Lemma clean_special_characters_fixed s :
  forallb plain s = true -> clean_special_characters s = s.
Proof.
  intros H. unfold clean_special_characters. rewrite 2 requote.
  rewrite re_sub_class_map.
  assert (Hm : map (fun c => if in_class [EN_DASH; EM_DASH] c then HYPHEN else c) s = s).
  { apply map_fixed. intros c Hc. rewrite forallb_forall in H.
    specialize (H c Hc). unfold plain in H.
    apply andb_true_iff in H as [H _]. apply andb_true_iff in H as [_ H].
    apply negb_true_iff in H. now rewrite H. }
  rewrite Hm. apply replace_absent.
  rewrite forallb_forall in H |- *. intros c Hc. specialize (H c Hc).
  unfold plain in H. now apply andb_true_iff in H as [_ H].
Qed.

Lemma plain_printable s : forallb plain s = true -> forallb printable s = true.
Proof.
  rewrite !forallb_forall. intros H c Hc. specialize (H c Hc). unfold plain in H.
  apply andb_true_iff in H as [H _]. now apply andb_true_iff in H as [H _].
Qed.

Lemma doubled_no_nl t g : doubled t g -> no_nl t = true -> g = t.
Proof.
  induction 1 as [|c t g _ IH|t g _ _]; intros H; [reflexivity| |discriminate].
  simpl in H. apply andb_true_iff in H as [_ H]. now rewrite (IH H).
Qed.

Section Characters.

Variable nfc : str -> str.
Variable decimal_table : N -> bool.
Variable alnum_table : N -> bool.

(** The output holds no control character and none of the dashes and
    ellipses that Step 8 rewrites. *)
Lemma preprocess_text_plain self x :
  forallb plain (preprocess_text nfc decimal_table alnum_table self x) = true.
Proof.
  unfold preprocess_text.
  apply forallb_strip.
  apply remove_empty_lines_forallb; [reflexivity|].
  apply remove_mid_sentence_newlines_forallb; try reflexivity.
  apply remove_excessive_newlines_forallb; [reflexivity|].
  apply normalize_whitespace_forallb; try reflexivity.
  apply clean_special_characters_plain, fix_common_encoding_issues_printable,
    remove_control_characters_printable.
Qed.

End Characters.

(** ** What the methods print *)

Lemma returns_ret {A : Type} (a : A) : returns (ret a) a.
Proof. intros stdout. exists []. unfold ret. rewrite app_nil_r. reflexivity. Qed.

Lemma returns_bind {A B : Type} (m : action A) (k : A -> action B) a b :
  returns m a -> returns (k a) b -> returns (bind m k) b.
Proof.
  intros Hm Hk stdout.
  destruct (Hm stdout) as [p1 E1]. destruct (Hk (stdout ++ p1)) as [p2 E2].
  exists (p1 ++ p2). unfold bind. rewrite E1, E2, app_assoc. reflexivity.
Qed.

(** The digits of a number are ASCII characters. *)
Lemma string_of_uint_ascii d :
  forallb is_ascii (lit (NilEmpty.string_of_uint d)) = true.
Proof.
  induction d; cbn [NilEmpty.string_of_uint lit forallb]; [reflexivity|..];
    rewrite IHd; reflexivity.
Qed.

Lemma str_of_int_ascii n : forallb is_ascii (str_of_int n) = true.
Proof.
  assert (U : forall d, forallb is_ascii (lit (NilZero.string_of_uint d)) = true).
  { intros d. destruct d; try apply (string_of_uint_ascii (_ _)). reflexivity. }
  unfold str_of_int, NilZero.string_of_int.
  destruct (Z.to_int n) as [d|d]; [apply U|].
  cbn [lit forallb]. rewrite U. reflexivity.
Qed.

(** Text made of ASCII literals and numbers. *)
Ltac ascii_text :=
  repeat rewrite forallb_app; repeat rewrite str_of_int_ascii; reflexivity.

Section Printing.

Variable encodable : N -> bool.
Hypothesis ascii_console : forall c, c < 128 -> encodable c = true.

Lemma ascii_encodable s : forallb is_ascii s = true -> forallb encodable s = true.
Proof.
  rewrite !forallb_forall. intros H c Hc. apply ascii_console.
  apply N.ltb_lt. apply (H c Hc).
Qed.

Lemma stdout_write_returns s :
  forallb is_ascii s = true -> returns (Run.stdout_write encodable s) tt.
Proof.
  intros H stdout. exists s. unfold Run.stdout_write.
  rewrite (ascii_encodable s H). reflexivity.
Qed.

Lemma print_returns s :
  forallb is_ascii s = true -> returns (Run.print encodable s) tt.
Proof.
  intros H. unfold Run.print.
  eapply returns_bind; [apply stdout_write_returns, H|].
  apply stdout_write_returns. reflexivity.
Qed.

Lemma for_each_print_returns (stats : list (str * Z)) :
  forallb (fun kv : str * Z => forallb is_ascii (fst kv)) stats = true ->
  returns
    (for_each stats (fun kv =>
       Run.print encodable (lit "  - " ++ fst kv ++ lit ": " ++ str_of_int (snd kv))))
    tt.
Proof.
  induction stats as [|kv stats IH]; cbn [for_each forallb]; intros H.
  - apply returns_ret.
  - apply andb_true_iff in H. destruct H as [Hk Hs].
    eapply returns_bind; [|apply IH, Hs].
    apply print_returns. repeat rewrite forallb_app. rewrite Hk. ascii_text.
Qed.

End Printing.

(** A step's report is printed whole when the console has the ASCII
    characters, and not at all without [verbose]. *)
Lemma print_step_stats_returns encodable self step_name original_text
    processed_text (additional_stats : list (str * Z)) :
  (verbose self = true -> forall c, c < 128 -> encodable c = true) ->
  forallb is_ascii step_name = true ->
  forallb (fun kv : str * Z => forallb is_ascii (fst kv)) additional_stats = true ->
  returns
    (Run._print_step_stats encodable self step_name original_text processed_text
       additional_stats)
    tt.
Proof.
  intros Hc Hn Hs. unfold Run._print_step_stats.
  destruct (verbose self); cbn [negb]; [|apply returns_ret].
  specialize (Hc eq_refl).
  eapply returns_bind;
    [apply print_returns; [exact Hc|]; repeat rewrite forallb_app; rewrite Hn;
     reflexivity|].
  eapply returns_bind; [apply print_returns; [exact Hc|ascii_text]|].
  eapply returns_bind; [apply print_returns; [exact Hc|ascii_text]|].
  destruct additional_stats as [|kv stats]; [apply returns_ret|].
  apply for_each_print_returns; assumption.
Qed.

(** The text the loop of Step 7 carries is the text of
    [fix_common_encoding_issues]. *)
Lemma encoding_loop_text (table : list (str * str)) n t :
  snd (fold_left
         (fun (acc : Z * str) (kv : str * str) =>
            ((fst acc + count (fst kv) (snd acc))%Z,
             replace (fst kv) (snd kv) (snd acc)))
         table (n, t))
  = fold_left (fun t kv => replace (fst kv) (snd kv) t) table t.
Proof.
  revert n t. induction table as [|kv table IH]; intros n t; [reflexivity|].
  cbn [fold_left fst snd]. apply IH.
Qed.

Section Reports.

Variable encodable : N -> bool.
Variable nfc : str -> str.
Variable decimal_table : N -> bool.
Variable alnum_table : N -> bool.
Variable self : TextPreprocessor.
Hypothesis console :
  verbose self = true -> forall c, c < 128 -> encodable c = true.

(** A step: its report, then its text. *)
Ltac step_returns :=
  eapply returns_bind;
  [apply print_step_stats_returns; [exact console|reflexivity|reflexivity]
  |apply returns_ret].

Lemma normalize_unicode_returns text :
  returns (Run.normalize_unicode encodable nfc self text) (normalize_unicode nfc text).
Proof. unfold Run.normalize_unicode. step_returns. Qed.

Lemma remove_control_characters_returns text :
  returns (Run.remove_control_characters encodable self text)
    (remove_control_characters text).
Proof. unfold Run.remove_control_characters. step_returns. Qed.

Lemma fix_common_encoding_issues_returns text :
  returns (Run.fix_common_encoding_issues encodable self text)
    (fix_common_encoding_issues text).
Proof.
  unfold Run.fix_common_encoding_issues, fix_common_encoding_issues.
  rewrite <- (encoding_loop_text replacements 0 text). step_returns.
Qed.

Lemma clean_special_characters_returns text :
  returns (Run.clean_special_characters encodable self text)
    (clean_special_characters text).
Proof. unfold Run.clean_special_characters. step_returns. Qed.

Lemma normalize_whitespace_returns text :
  returns (Run.normalize_whitespace encodable self text) (normalize_whitespace text).
Proof. unfold Run.normalize_whitespace. step_returns. Qed.

Lemma remove_excessive_newlines_returns text :
  returns (Run.remove_excessive_newlines encodable self text)
    (remove_excessive_newlines self text).
Proof.
  unfold Run.remove_excessive_newlines, remove_excessive_newlines.
  destruct (preserve_paragraphs self); step_returns.
Qed.

Lemma remove_mid_sentence_newlines_returns text :
  returns
    (Run.remove_mid_sentence_newlines encodable decimal_table alnum_table self text)
    (remove_mid_sentence_newlines decimal_table alnum_table text).
Proof. unfold Run.remove_mid_sentence_newlines. step_returns. Qed.

Lemma remove_empty_lines_returns text :
  returns (Run.remove_empty_lines encodable self text) (remove_empty_lines self text).
Proof. unfold Run.remove_empty_lines. step_returns. Qed.

(** The banners of the pipeline. *)
Lemma opening_returns text :
  returns
    (if verbose self then
       Run.print encodable ([NL] ++ Run.rule) ;;
       Run.print encodable (lit "STARTING TEXT PREPROCESSING") ;;
       Run.print encodable Run.rule ;;
       Run.print encodable
         (lit "Original text length: " ++ str_of_int (len text)
          ++ lit " characters") ;;
       Run.print encodable
         (lit "Original line count: " ++ str_of_int (len (split_nl text)))
     else ret tt)
    tt.
Proof.
  destruct (verbose self); [|apply returns_ret]. specialize (console eq_refl).
  repeat (eapply returns_bind; [apply print_returns; [exact console|ascii_text]|]).
  apply print_returns; [exact console|ascii_text].
Qed.

Lemma closing_returns (stats : list (str * str)) (stripped_chars : Z) (text : str) :
  returns
    (if verbose self then
       Run.print encodable
         ([NL] ++ lit "Final cleanup - Leading/trailing whitespace removed: "
          ++ str_of_int stripped_chars) ;;
       Run.print encodable ([NL] ++ Run.rule) ;;
       Run.print encodable (lit "PREPROCESSING COMPLETE") ;;
       Run.print encodable Run.rule ;;
       Run.print encodable
         (lit "Final text length: " ++ str_of_int (len text) ++ lit " characters") ;;
       Run.print encodable
         (lit "Final line count: " ++ str_of_int (len (split_nl text))) ;;
       Run.print encodable
         (lit "Total characters removed: "
          ++ match dict_get (lit "original_text") stats with
             | Some original => str_of_int (len original - len text)
             | None => lit "N/A"
             end)
     else ret tt)
    tt.
Proof.
  destruct (verbose self); [|apply returns_ret]. specialize (console eq_refl).
  repeat (eapply returns_bind; [apply print_returns; [exact console|ascii_text]|]).
  apply print_returns; [exact console|].
  destruct (dict_get (lit "original_text") stats); ascii_text.
Qed.

(** The run of the pipeline returns the text of [preprocess_text]. *)
Lemma preprocess_text_returns stats text :
  returns
    (Run.preprocess_text encodable nfc decimal_table alnum_table self stats text)
    (preprocess_text nfc decimal_table alnum_table self text).
Proof.
  unfold Run.preprocess_text, preprocess_text.
  eapply returns_bind; [apply opening_returns|].
  eapply returns_bind; [apply normalize_unicode_returns|].
  eapply returns_bind; [apply remove_control_characters_returns|].
  eapply returns_bind; [apply fix_common_encoding_issues_returns|].
  eapply returns_bind; [apply clean_special_characters_returns|].
  eapply returns_bind; [apply normalize_whitespace_returns|].
  eapply returns_bind; [apply remove_excessive_newlines_returns|].
  eapply returns_bind; [apply remove_mid_sentence_newlines_returns|].
  eapply returns_bind; [apply remove_empty_lines_returns|].
  eapply returns_bind; [apply closing_returns|].
  apply returns_ret.
Qed.

End Reports.

(** * The claims *)

(** C1 (as the code behaves): on the key that the table lists for the em
    dash and the en dash, U+00E2 U+20AC U+0022, [fix_common_encoding_issues]
    yields two straight double quotes and no dash: the shorter closing-quote
    key U+00E2 U+20AC stands earlier in the dict and is replaced first. *)
Theorem fix_common_encoding_issues_dash_mojibake :
  fix_common_encoding_issues dash_mojibake = [DQUOTE; DQUOTE].
Proof. vm_compute. reflexivity. Qed.

(** C2 (as the code behaves): on the fever note
    [remove_mid_sentence_newlines] keeps "38.5" in one piece, and it breaks
    the line right after "Dr.": the abbreviation pattern wants the newline
    directly after "Dr", where the period stands. *)
Theorem remove_mid_sentence_newlines_fever_note decimal_table alnum_table :
  remove_mid_sentence_newlines decimal_table alnum_table fever_note
  = lit "Patient presented with fever." ++ [NL]
    ++ lit "Temperature was 38.5 C." ++ [NL]
    ++ lit "Dr." ++ [NL] ++ lit "Smith examined the patient.".
Proof. vm_compute. reflexivity. Qed.

Lemma remove_mid_sentence_newlines_after_excessive decimal_table alnum_table self t :
  remove_mid_sentence_newlines decimal_table alnum_table (remove_excessive_newlines self t)
  = remove_mid_sentence_newlines decimal_table alnum_table t.
Proof.
  unfold remove_mid_sentence_newlines.
  now rewrite remove_excessive_newlines_invisible.
Qed.

(** C3 (amended): whenever the output of a first pass is itself unchanged by
    Unicode normalisation and by [fix_common_encoding_issues], a second pass
    returns it unchanged. *)
Theorem preprocess_text_idempotent_on_stable_output
    nfc decimal_table alnum_table self x :
  normalize_unicode nfc (preprocess_text nfc decimal_table alnum_table self x)
    = preprocess_text nfc decimal_table alnum_table self x ->
  fix_common_encoding_issues (preprocess_text nfc decimal_table alnum_table self x)
    = preprocess_text nfc decimal_table alnum_table self x ->
  preprocess_text nfc decimal_table alnum_table self
    (preprocess_text nfc decimal_table alnum_table self x)
  = preprocess_text nfc decimal_table alnum_table self x.
Proof.
  pose proof (preprocess_text_plain nfc decimal_table alnum_table self x) as Hplain.
  destruct (preprocess_text_shape nfc decimal_table alnum_table self x)
    as (K & HK & Hkeep & Hy).
  rewrite Hy in *. intros Hnfc Hfix.
  unfold preprocess_text. rewrite Hnfc.
  rewrite (remove_control_characters_fixed _ (plain_printable _ Hplain)).
  rewrite Hfix, (clean_special_characters_fixed _ Hplain).
  now apply late_stages_fixed.
Qed.

(** The hypotheses of C3 hold for a plain two-sentence text. *)
Lemma preprocess_text_idempotent_witness :
  let pp := preprocess_text (fun s => s) (fun _ => false) (fun _ => false)
              default_config in
  let x := lit "Hello world. Bye now." in
  normalize_unicode (fun s => s) (pp x) = pp x
  /\ fix_common_encoding_issues (pp x) = pp x
  /\ pp (pp x) = pp x.
Proof.
  intros pp x. split; [reflexivity|]. split; [vm_compute; reflexivity|].
  apply (preprocess_text_idempotent_on_stable_output
           (fun s => s) (fun _ => false) (fun _ => false) default_config x).
  - reflexivity.
  - vm_compute. reflexivity.
Defined.

(** C3 (as claimed) fails: [fix_common_encoding_issues] deletes the stray
    U+00C2 only after it has looked for the apostrophe artifact, so the first
    pass leaves that artifact behind and the second pass rewrites it, for
    every NFC function that leaves these Latin-1 letters and symbols alone. *)
Lemma preprocess_text_not_idempotent :
  nfc_stable (fun s => s)
  /\ forall nfc decimal_table alnum_table, nfc_stable nfc ->
       preprocess_text nfc decimal_table alnum_table default_config
         (preprocess_text nfc decimal_table alnum_table default_config
            split_apostrophe_mojibake)
       <> preprocess_text nfc decimal_table alnum_table default_config
            split_apostrophe_mojibake.
Proof.
  split; [intros s _; reflexivity|].
  intros nfc decimal_table alnum_table Hnfc.
  set (y := [a_circ; euro; 0x2122]).
  assert (H1 : preprocess_text nfc decimal_table alnum_table default_config
                 split_apostrophe_mojibake = y).
  { unfold preprocess_text, normalize_unicode.
    rewrite (Hnfc split_apostrophe_mojibake eq_refl).
    replace (clean_special_characters
               (fix_common_encoding_issues
                  (remove_control_characters split_apostrophe_mojibake)))
      with (join_nl [y]) by (vm_compute; reflexivity).
    apply late_stages_fixed; reflexivity. }
  assert (H2 : preprocess_text nfc decimal_table alnum_table default_config y = []).
  { unfold preprocess_text, normalize_unicode. rewrite (Hnfc y eq_refl).
    replace (remove_excessive_newlines default_config
               (normalize_whitespace
                  (clean_special_characters
                     (fix_common_encoding_issues (remove_control_characters y)))))
      with [SQUOTE] by (vm_compute; reflexivity).
    pose proof (remove_mid_sentence_newlines_segmented decimal_table alnum_table
                  [SQUOTE] eq_refl) as Hd.
    apply doubled_no_nl in Hd; [|reflexivity]. rewrite Hd. reflexivity. }
  rewrite H1, H2. discriminate.
Qed.

(** C4: the run of the pipeline never raises.  Printing is the one
    operation of the class that can raise, at a character the console
    cannot encode, and what the pipeline prints with [verbose] set is made
    of ASCII literals and of numbers, never of the text.  So on a console
    that has the ASCII characters, and on any console without [verbose],
    the run returns for every text, every configuration and every content
    of [self.stats], and it returns the text of [preprocess_text].  On the
    empty string it returns the empty string, NFC leaving the empty string
    empty. *)
Theorem preprocess_text_total encodable nfc decimal_table alnum_table self stats :
  (verbose self = true -> forall c, c < 128 -> encodable c = true) ->
  (nfc [] = [] ->
   forall stdout, exists printed,
     Run.preprocess_text encodable nfc decimal_table alnum_table self stats []
       stdout
     = Returns [] (stdout ++ printed))
  /\ forall text stdout, exists printed,
       Run.preprocess_text encodable nfc decimal_table alnum_table self stats text
         stdout
       = Returns (preprocess_text nfc decimal_table alnum_table self text)
           (stdout ++ printed).
Proof.
  intros console.
  pose proof (preprocess_text_returns encodable nfc decimal_table alnum_table
                self console stats) as H.
  split; [|exact H].
  intros Hnfc stdout. destruct (H [] stdout) as [printed E]. exists printed.
  rewrite E. f_equal.
  unfold preprocess_text, normalize_unicode. rewrite Hnfc.
  destruct self as [[|] m v]; reflexivity.
Qed.

(** C4 on an ASCII console, with [verbose] set and NFC doing nothing: the
    run returns on the empty string and on a text with characters the
    console does not have. *)
Lemma preprocess_text_total_witness :
  (verbose default_config = true -> forall c, c < 128 -> is_ascii c = true)
  /\ (fun s : str => s) [] = []
  /\ (exists printed,
        Run.preprocess_text is_ascii (fun s => s) (fun _ => false) (fun _ => false)
          default_config [] [] []
        = Returns [] ([] ++ printed))
  /\ (exists printed,
        Run.preprocess_text is_ascii (fun s => s) (fun _ => false) (fun _ => false)
          default_config [] accented_note []
        = Returns
            (preprocess_text (fun s => s) (fun _ => false) (fun _ => false)
               default_config accented_note)
            ([] ++ printed)).
Proof.
  assert (console : verbose default_config = true ->
                    forall c, c < 128 -> is_ascii c = true).
  { intros _ c Hc. apply N.ltb_lt. exact Hc. }
  split; [exact console|]. split; [reflexivity|].
  destruct (preprocess_text_total is_ascii (fun s => s) (fun _ => false)
              (fun _ => false) default_config [] console) as [Hempty Hall].
  split; [apply (Hempty eq_refl []) | apply (Hall accented_note [])].
Defined.

(** The exception is there to be raised: the script at the end of the file
    prints the processed text itself, and on an ASCII console that fails at
    the accented letter the pipeline has kept. *)
Example print_processed_text_raises :
  Run.print is_ascii
    (preprocess_text (fun s => s) (fun _ => false) (fun _ => false)
       default_config accented_note) []
  = Raises
      (UnicodeEncodeError
         (lit "The patient's fever fell." ++ [NL] ++ lit "Caf" ++ [0xE9]
          ++ lit " au lait was allowed."))
      [].
Proof. vm_compute. reflexivity. Qed.

(** C5: with [preserve_paragraphs] set the output never holds three
    newlines in a row, and without it never two. *)
Theorem preprocess_text_paragraph_collapse nfc decimal_table alnum_table self x :
  if preserve_paragraphs self
  then ~ has_newline_run 3 (preprocess_text nfc decimal_table alnum_table self x)
  else ~ has_newline_run 2 (preprocess_text nfc decimal_table alnum_table self x).
Proof.
  pose proof (segmented_no_newline_run _
                (preprocess_text_segmented nfc decimal_table alnum_table self x)) as H.
  destruct (preserve_paragraphs self); [|exact H].
  intros H3. apply H. now apply newline_run_shorter.
Qed.

(** C6: every non-empty line of the output is at least [min_line_length]
    long once stripped. *)
Theorem preprocess_text_line_length nfc decimal_table alnum_table self x :
  Forall (fun line =>
            line <> [] -> (min_line_length self <= Z.of_nat (length (strip line)))%Z)
         (split_nl (preprocess_text nfc decimal_table alnum_table self x)).
Proof.
  destruct (preprocess_text_lines nfc decimal_table alnum_table self x)
    as [-> | [_ Hkeep]].
  - constructor; [congruence | constructor].
  - rewrite forallb_forall in Hkeep. apply Forall_forall. intros line Hin _.
    specialize (Hkeep line Hin). unfold keep_line in Hkeep.
    destruct (strip line); [discriminate|]. now apply Z.leb_le.
Qed.

(** C7: no line of the output ends in a space or a tab, and the output
    holds no three spaces or tabs in a row. *)
Theorem preprocess_text_whitespace nfc decimal_table alnum_table self x :
  Forall (fun line => trailing_blank line = false)
         (split_nl (preprocess_text nfc decimal_table alnum_table self x))
  /\ ~ has_blank_run3 (preprocess_text nfc decimal_table alnum_table self x).
Proof.
  split.
  - destruct (preprocess_text_lines nfc decimal_table alnum_table self x)
      as [-> | [Hok _]].
    + constructor; [reflexivity | constructor].
    + apply lines_ok_each in Hok. rewrite forallb_forall in Hok.
      apply Forall_forall. intros line Hin.
      now apply line_ok_no_trailing_blank, Hok.
  - apply segmented_no_blank_run, preprocess_text_segmented.
Qed.

(** C8 (amended): [remove_control_characters] removes exactly the C0 control codes other than
    \n, \r and \t, the C1 control codes and U+007F DELETE, and keeps every
    other character in its place. *)
Theorem remove_control_characters_exact s :
  remove_control_characters s
  = filter (fun c => negb (c0_c1_removed c || (c =? DEL))) s.
Proof.
  rewrite remove_control_characters_filter.
  apply filter_ext. intros c. unfold printable. f_equal.
  unfold c0_c1_removed, is_c0, is_c1, in_class, DEL. cbn [existsb].
  destruct (is_control c) eqn:E; symmetry; char_bool.
Qed.

(** C8 (as claimed) fails: U+007F is neither a C0 nor a C1 control code,
    and [remove_control_characters] removes it. *)
Lemma remove_control_characters_removes_del :
  remove_control_characters [DEL]
  <> filter (fun c => negb (c0_c1_removed c)) [DEL].
Proof. vm_compute. discriminate. Qed.

(** C9: the output never holds two newlines in a row, whatever the
    configuration. *)
Theorem preprocess_text_no_blank_line nfc decimal_table alnum_table self x :
  ~ has_newline_run 2 (preprocess_text nfc decimal_table alnum_table self x).
Proof. apply segmented_no_newline_run, preprocess_text_segmented. Qed.

(** C10: the output does not depend on [preserve_paragraphs]. *)
Theorem preprocess_text_ignores_preserve_paragraphs
    nfc decimal_table alnum_table m v v' x :
  preprocess_text nfc decimal_table alnum_table
    {| preserve_paragraphs := true; min_line_length := m; verbose := v |} x
  = preprocess_text nfc decimal_table alnum_table
      {| preserve_paragraphs := false; min_line_length := m; verbose := v' |} x.
Proof.
  unfold preprocess_text.
  now rewrite 2 remove_mid_sentence_newlines_after_excessive.
Qed.

(** * Further properties of the stages *)

(** ** The encoding repair *)

Lemma replacements_value :
  replacements =
  [ ([a_circ; euro; 0x2122], [SQUOTE]); ([a_circ; euro; 0x153], [DQUOTE]);
    ([a_circ; euro], [DQUOTE]); (dash_mojibake, [EN_DASH]);
    ([0xC2], []); ([a_circ; euro; 0xA6], [DOT; DOT; DOT]) ].
Proof. reflexivity. Qed.

Lemma replacements_without_dash_value :
  replacements_without_dash =
  [ ([a_circ; euro; 0x2122], [SQUOTE]); ([a_circ; euro; 0x153], [DQUOTE]);
    ([a_circ; euro], [DQUOTE]); ([0xC2], []);
    ([a_circ; euro; 0xA6], [DOT; DOT; DOT]) ].
Proof. reflexivity. Qed.

(** A key whose first character is absent finds nothing. *)
Lemma replace_absent_head x old new s :
  forallb (fun c => negb (c =? x)) s = true -> replace (x :: old) new s = s.
Proof.
  unfold replace. induction s as [|c s IH]; [reflexivity|]. intros H.
  simpl in H. apply andb_true_iff in H as [Hc Hs]. apply negb_true_iff in Hc.
  rewrite re_sub_cons by auto with scan. unfold m_literal at 1. cbn [starts_with].
  rewrite N.eqb_sym, Hc. cbn [andb]. now rewrite (IH Hs).
Qed.

(** Once the closing-quote key is replaced, it occurs nowhere. *)
Lemma close_quote_gone s : forall prev,
  (opt_test (fun p => p =? a_circ) prev = true -> starts_with [euro] s = false) ->
  chain (R_no_pair a_circ euro) prev (replace [a_circ; euro] [DQUOTE] s) = true.
Proof.
  unfold replace.
  pattern s, (re_sub (m_literal [a_circ; euro] [DQUOTE]) s).
  apply re_sub_ind; [auto with scan | reflexivity | |]; clear s.
  - intros c s Hm IH prev Hp. unfold m_literal in Hm.
    destruct (starts_with [a_circ; euro] (c :: s)) eqn:E; [discriminate|].
    cbn [chain]. rewrite IH.
    + rewrite andb_true_r. unfold R_no_pair.
      destruct (opt_test (fun p => p =? a_circ) prev) eqn:Ep; [|reflexivity].
      specialize (Hp eq_refl). cbn [starts_with] in Hp.
      rewrite andb_true_r, N.eqb_sym in Hp. now rewrite Hp.
    + cbn [opt_test]. intros Hc. cbn [starts_with] in E.
      rewrite N.eqb_sym, Hc in E. exact E.
  - intros c s len rep Hm IH prev Hp. unfold m_literal in Hm.
    destruct (starts_with [a_circ; euro] (c :: s)); [|discriminate].
    injection Hm as <- <-. cbn [app chain]. rewrite IH.
    + rewrite andb_true_r. unfold R_no_pair. now rewrite andb_false_r.
    + discriminate.
Qed.

(** The key of the dashes finds nothing where the closing-quote key does
    not occur. *)
Lemma dash_key_absent new t prev :
  chain (R_no_pair a_circ euro) prev t = true ->
  sub_from (m_literal dash_mojibake new) 0 prev t = t.
Proof.
  apply (sub_from_noop _ (R_no_pair a_circ euro)). clear. intros prev c s H.
  unfold m_literal, dash_mojibake. cbn [starts_with].
  destruct (a_circ =? c) eqn:Ea; [|reflexivity].
  destruct s as [|d s]; [reflexivity|].
  destruct (euro =? d) eqn:Ee; [|reflexivity]. exfalso.
  cbn [chain] in H. apply andb_true_iff in H as [_ H].
  apply andb_true_iff in H as [H _]. unfold R_no_pair in H. cbn [opt_test] in H.
  now rewrite N.eqb_sym, Ea, N.eqb_sym, Ee in H.
Qed.

(** The repair, rule by rule: the rule of the dashes, which runs right
    after the rule of the closing quote, never finds its key. *)
Lemma fix_common_encoding_issues_rules s :
  fix_common_encoding_issues s =
  replace [a_circ; euro; 0xA6] [DOT; DOT; DOT]
    (replace [0xC2] []
       (replace [a_circ; euro] [DQUOTE]
          (replace [a_circ; euro; 0x153] [DQUOTE]
             (replace [a_circ; euro; 0x2122] [SQUOTE] s)))).
Proof.
  unfold fix_common_encoding_issues. rewrite replacements_value.
  cbn [fold_left fst snd].
  set (t := replace [a_circ; euro] [DQUOTE] _).
  assert (Ht : replace dash_mojibake [EN_DASH] t = t).
  { unfold replace at 1, re_sub. apply dash_key_absent.
    subst t. apply close_quote_gone. discriminate. }
  now rewrite Ht.
Qed.

Lemma fix_common_encoding_issues_fixed s :
  forallb no_artifact_letter s = true -> fix_common_encoding_issues s = s.
Proof.
  intros H. unfold fix_common_encoding_issues.
  assert (Htab : forallb (fun kv => match fst kv with
                                    | k :: _ => (k =? a_circ) || (k =? 0xC2)
                                    | [] => false
                                    end) replacements = true) by reflexivity.
  revert Htab. generalize replacements as tab.
  induction tab as [|[old new] tab IH]; intros Htab; [reflexivity|].
  cbn [forallb fst] in Htab. apply andb_true_iff in Htab as [Hk Htab].
  cbn [fold_left fst snd]. destruct old as [|k old]; [discriminate|].
  rewrite replace_absent_head; [exact (IH Htab)|].
  rewrite forallb_forall in H |- *. intros c Hc. specialize (H c Hc).
  unfold no_artifact_letter in H. apply andb_true_iff in H as [H1 H2].
  apply orb_true_iff in Hk as [Hk|Hk]; apply N.eqb_eq in Hk; now subst k.
Qed.

(** X1: a text with neither U+00E2 nor U+00C2 in it, and so every ASCII
    text, passes [fix_common_encoding_issues] unchanged. *)
Theorem fix_common_encoding_issues_unchanged s :
  forallb no_artifact_letter s = true -> fix_common_encoding_issues s = s.
Proof. exact (fix_common_encoding_issues_fixed s). Qed.

Lemma fix_common_encoding_issues_unchanged_witness :
  forallb no_artifact_letter (lit "Plain text, no artifacts.") = true
  /\ fix_common_encoding_issues (lit "Plain text, no artifacts.")
     = lit "Plain text, no artifacts.".
Proof.
  split; [reflexivity|].
  apply (fix_common_encoding_issues_unchanged (lit "Plain text, no artifacts.")).
  reflexivity.
Defined.

(** X2: the output of [fix_common_encoding_issues] holds no U+00C2: every
    one of them is deleted, wherever it stands. *)
Theorem fix_common_encoding_issues_deletes_A_circumflex s :
  forallb (fun c => negb (c =? 0xC2)) (fix_common_encoding_issues s) = true.
Proof.
  rewrite fix_common_encoding_issues_rules.
  apply replace_forallb; [reflexivity|]. now apply replace_gone.
Qed.

(** X3: the entry of the dashes is dead: deleting it from the table changes
    the result of [fix_common_encoding_issues] on no text. *)
Theorem fix_common_encoding_issues_dash_entry_dead s :
  fix_common_encoding_issues s
  = fold_left (fun t kv => replace (fst kv) (snd kv) t) replacements_without_dash s.
Proof.
  rewrite fix_common_encoding_issues_rules, replacements_without_dash_value.
  reflexivity.
Qed.

(** X4: [fix_common_encoding_issues] never brings a dash into a text that
    has none. *)
Theorem fix_common_encoding_issues_no_new_dash s :
  forallb not_dash s = true -> forallb not_dash (fix_common_encoding_issues s) = true.
Proof.
  intros H. rewrite fix_common_encoding_issues_rules.
  repeat (apply replace_forallb; [reflexivity|]). exact H.
Qed.

Lemma fix_common_encoding_issues_no_new_dash_witness :
  forallb not_dash (dash_mojibake ++ lit " and " ++ [a_circ; euro; 0xA6]) = true
  /\ forallb not_dash
       (fix_common_encoding_issues
          (dash_mojibake ++ lit " and " ++ [a_circ; euro; 0xA6])) = true.
Proof.
  split; [reflexivity|].
  apply (fix_common_encoding_issues_no_new_dash
           (dash_mojibake ++ lit " and " ++ [a_circ; euro; 0xA6])).
  reflexivity.
Defined.

(** ** The typographic cleaning *)

Lemma replace_single x new s :
  replace [x] new s = flat_map (fun c => if c =? x then new else [c]) s.
Proof.
  unfold replace. induction s as [|c s IH]; [reflexivity|].
  rewrite re_sub_cons by auto with scan. unfold m_literal at 1. cbn [starts_with].
  rewrite andb_true_r, N.eqb_sym. cbn [flat_map].
  destruct (c =? x); cbn [length Nat.pred skipn]; now rewrite IH.
Qed.

Lemma clean_special_characters_flat_map s :
  clean_special_characters s = flat_map clean_char s.
Proof.
  unfold clean_special_characters. rewrite 2 requote, re_sub_class_map, replace_single.
  induction s as [|c s IH]; [reflexivity|]. cbn [map flat_map]. rewrite IH.
  f_equal. unfold clean_char. destruct (in_class [EN_DASH; EM_DASH] c) eqn:E.
  - reflexivity.
  - reflexivity.
Qed.

(** X5: [clean_special_characters] works character by character: an en dash
    or em dash becomes a hyphen, the ellipsis glyph three periods, and every
    other character, the curly quotes U+2018, U+2019, U+201C and U+201D
    included, stays as it is. *)
Theorem clean_special_characters_per_character s :
  clean_special_characters s = flat_map clean_char s.
Proof. exact (clean_special_characters_flat_map s). Qed.

Lemma clean_char_stable c : flat_map clean_char (clean_char c) = clean_char c.
Proof.
  unfold clean_char. destruct (in_class [EN_DASH; EM_DASH] c) eqn:E; [reflexivity|].
  destruct (c =? ELLIPSIS) eqn:E'; [reflexivity|].
  cbn [flat_map]. now rewrite E, E'.
Qed.

(** X6: cleaning twice is cleaning once. *)
Theorem clean_special_characters_idempotent s :
  clean_special_characters (clean_special_characters s) = clean_special_characters s.
Proof.
  rewrite !clean_special_characters_flat_map.
  induction s as [|c s IH]; [reflexivity|]. cbn [flat_map].
  now rewrite flat_map_app, IH, clean_char_stable.
Qed.

(** ** The control characters *)

(** X7: what [remove_control_characters] returns holds no character of its
    class, and a second run changes nothing. *)
Theorem remove_control_characters_idempotent s :
  forallb (fun c => negb (is_control c)) (remove_control_characters s) = true
  /\ remove_control_characters (remove_control_characters s)
     = remove_control_characters s.
Proof.
  pose proof (remove_control_characters_printable s) as H. split; [exact H|].
  now apply remove_control_characters_fixed.
Qed.

(** ** Whitespace normalisation *)

Lemma blank_cases c : is_blank c = true -> c = SP \/ c = TAB.
Proof.
  unfold is_blank. intros H. apply orb_true_iff in H as [H|H];
    apply N.eqb_eq in H; auto.
Qed.

Lemma single_spaces_chain x : forall prev,
  (starts_blank x = true -> opt_test is_sp prev = false) ->
  chain R_single_spaces prev (re_sub (m_run 1 is_blank [SP]) x) = true.
Proof.
  pattern x, (re_sub (m_run 1 is_blank [SP]) x).
  apply re_sub_ind; [auto with scan | reflexivity | |]; clear x.
  - intros c s Hm IH prev _. apply run1_nomatch_head in Hm.
    cbn [chain]. rewrite IH.
    + rewrite andb_true_r. unfold R_single_spaces.
      replace (c =? TAB) with false by (symmetry; char_bool).
      replace (c =? SP) with false by (symmetry; char_bool).
      now rewrite andb_false_r.
    + intros _. cbn [opt_test]. char_bool.
  - intros c s len rep Hm IH prev Hp.
    apply run_match_head in Hm as (Hc & -> & ->). cbn [Nat.pred] in *.
    rewrite skipn_take_while in *. cbn [app chain]. rewrite IH.
    + rewrite andb_true_r. unfold R_single_spaces. now rewrite (Hp Hc).
    + destruct (drop_while is_blank s) as [|d r] eqn:E; [discriminate|].
      apply drop_while_head in E. cbn [starts_blank]. rewrite E. discriminate.
Qed.

Lemma line_ending_match c s len rep :
  m_line_ending None (c :: s) = Some (len, rep) ->
  c = CR /\ rep = [NL]
  /\ ((len = 2%nat /\ exists s', s = NL :: s') \/ (len = 1%nat /\ starts_nl s = false)).
Proof.
  unfold m_line_ending. destruct (c =? CR) eqn:Ec; [|discriminate].
  apply N.eqb_eq in Ec. destruct s as [|d s'].
  - intros [= <- <-]. auto.
  - cbn [starts_nl]. unfold is_nl. destruct (d =? NL) eqn:Ed; intros [= <- <-].
    + apply N.eqb_eq in Ed. subst d. split; [exact Ec|]. split; [reflexivity|].
      left. eauto.
    + auto.
Qed.

Lemma line_ending_nomatch c s : m_line_ending None (c :: s) = None -> (c =? CR) = false.
Proof.
  unfold m_line_ending. destruct (c =? CR); [|reflexivity].
  destruct s as [|d s']; [discriminate|]. destruct (d =? NL); discriminate.
Qed.

Lemma R_single_spaces_prev p q c :
  (opt_test is_sp q = true -> opt_test is_sp p = true) ->
  R_single_spaces p c = true -> R_single_spaces q c = true.
Proof.
  unfold R_single_spaces. intros Hpq H. apply andb_true_iff in H as [H1 H2].
  rewrite H1. cbn [andb]. destruct (opt_test is_sp q); [|reflexivity].
  now rewrite (Hpq eq_refl) in H2.
Qed.

Lemma R_unix_lines_nl prev : R_unix_lines prev NL = true.
Proof.
  unfold R_unix_lines, R_single_spaces. destruct (opt_test is_sp prev); reflexivity.
Qed.

Lemma unix_lines_chain x : forall prev prev',
  (opt_test is_sp prev' = true -> opt_test is_sp prev = true) ->
  chain R_single_spaces prev x = true ->
  chain R_unix_lines prev' (re_sub m_line_ending x) = true.
Proof.
  pattern x, (re_sub m_line_ending x).
  apply re_sub_ind; [auto with scan | reflexivity | |]; clear x.
  - intros c s Hm IH prev prev' Hpp H. apply line_ending_nomatch in Hm.
    cbn [chain] in H |- *. apply andb_true_iff in H as [Hc Hs].
    rewrite (IH (Some c) (Some c)); [|auto|exact Hs].
    rewrite andb_true_r. unfold R_unix_lines.
    now rewrite (R_single_spaces_prev _ _ _ Hpp Hc), Hm.
  - intros c s len rep Hm IH prev prev' _ H.
    apply line_ending_match in Hm as (-> & -> & [[-> (s' & ->)] | [-> _]]);
      cbn [Nat.pred skipn app chain] in *.
    + apply andb_true_iff in H as [_ H]. apply andb_true_iff in H as [_ H].
      rewrite (IH (Some NL) (Some NL)); [now rewrite R_unix_lines_nl|auto|exact H].
    + apply andb_true_iff in H as [_ H].
      rewrite (IH (Some CR) (Some NL)); [now rewrite R_unix_lines_nl|discriminate|exact H].
Qed.

Lemma trailing_blanks_match c s len rep :
  m_trailing_blanks None (c :: s) = Some (len, rep) ->
  is_blank c = true /\ len = S (length (take_while is_blank s)) /\ rep = []
  /\ continues_line (drop_while is_blank s) = false.
Proof.
  unfold m_trailing_blanks. cbn [take_while drop_while].
  destruct (is_blank c); [|discriminate]. cbn [length Nat.leb].
  destruct (drop_while is_blank s) as [|d r].
  - intros [= <- <-]. auto.
  - cbn [continues_line]. destruct (d =? NL); [|discriminate].
    intros [= <- <-]. auto.
Qed.

Lemma trailing_blanks_nomatch c s :
  m_trailing_blanks None (c :: s) = None ->
  is_blank c = true -> continues_line (drop_while is_blank s) = true.
Proof.
  unfold m_trailing_blanks. cbn [take_while drop_while]. intros H Hc.
  rewrite Hc in H. cbn [length Nat.leb] in H.
  destruct (drop_while is_blank s) as [|d r]; [discriminate|].
  cbn [continues_line]. destruct (d =? NL); [discriminate | reflexivity].
Qed.

Lemma unix_lines_cases prev c :
  R_unix_lines prev c = true ->
  c <> TAB /\ c <> CR /\ (opt_test is_sp prev = true -> c <> SP).
Proof.
  unfold R_unix_lines, R_single_spaces. intros H.
  apply andb_true_iff in H as [H Hcr]. apply andb_true_iff in H as [Htab Hsp].
  apply negb_true_iff in Hcr, Htab, Hsp.
  apply N.eqb_neq in Hcr, Htab. repeat split; auto.
  intros Hp ->. now rewrite Hp in Hsp.
Qed.

Lemma trailing_blanks_chain x : forall prev,
  chain R_unix_lines prev x = true ->
  (opt_test is_sp prev = true -> continues_line x = true) ->
  ws_from prev (re_sub m_trailing_blanks x) = true.
Proof.
  pattern x, (re_sub m_trailing_blanks x).
  apply re_sub_ind; [auto with scan | | |]; clear x.
  - intros prev _ Hp. unfold ws_from. cbn [chain last_opt].
    destruct (opt_test is_sp prev); [|reflexivity]. now specialize (Hp eq_refl).
  - intros c s Hm IH prev H Hp. cbn [chain] in H.
    apply andb_true_iff in H as [Hc Hs].
    assert (Hnext : opt_test is_sp (Some c) = true -> continues_line s = true).
    { cbn [opt_test]. intros Hsp.
      assert (Hb : is_blank c = true)
        by (unfold is_blank; unfold is_sp in Hsp; now rewrite Hsp).
      pose proof (trailing_blanks_nomatch _ _ Hm Hb) as Hd.
      destruct s as [|d s']; [discriminate|]. cbn [drop_while] in Hd.
      destruct (is_blank d) eqn:Ed; [|exact Hd].
      cbn [chain] in Hs. apply andb_true_iff in Hs as [Hd' _].
      apply unix_lines_cases in Hd' as (Ht & _ & Hs').
      apply blank_cases in Ed as [->| ->]; [now specialize (Hs' Hsp)|congruence]. }
    specialize (IH (Some c) Hs Hnext). unfold ws_from in *.
    cbn [chain last_opt]. apply andb_true_iff in IH as [IH1 IH2].
    rewrite IH1, IH2, !andb_true_r.
    apply unix_lines_cases in Hc as (Ht & Hcr & Hsp).
    unfold R_whitespace. apply N.eqb_neq in Ht, Hcr. rewrite Ht, Hcr. cbn [negb andb].
    destruct (opt_test is_sp prev) eqn:Ep; [|reflexivity].
    specialize (Hp eq_refl). specialize (Hsp eq_refl). cbn [continues_line] in Hp.
    apply N.eqb_neq in Hsp. rewrite Hsp. apply negb_true_iff in Hp. now rewrite Hp.
  - intros c s len rep Hm IH prev H Hp.
    apply trailing_blanks_match in Hm as (Hc & -> & -> & Hd).
    cbn [Nat.pred] in *. rewrite skipn_take_while in *. cbn [app].
    cbn [chain] in H. apply andb_true_iff in H as [Hc' Hs].
    apply unix_lines_cases in Hc' as (Ht & _ & Hsp).
    assert (Hprev : opt_test is_sp prev = false).
    { destruct (opt_test is_sp prev); [|reflexivity].
      apply blank_cases in Hc as [->| ->]; [now specialize (Hsp eq_refl)|congruence]. }
    apply IH.
    + apply (chain_drop_while _ is_blank) in Hs.
      destruct (drop_while is_blank s) as [|d r]; [reflexivity|].
      cbn [continues_line] in Hd. apply negb_false_iff in Hd.
      apply chain_rehead1 with (p := last_opt (Some c) (take_while is_blank s));
        [|exact Hs].
      apply N.eqb_eq in Hd. subst d. apply R_unix_lines_nl.
    + rewrite Hprev. discriminate.
Qed.

Lemma normalize_whitespace_normal x : whitespace_normal (normalize_whitespace x) = true.
Proof.
  unfold normalize_whitespace. change whitespace_normal with (ws_from None).
  apply trailing_blanks_chain; [|discriminate].
  apply unix_lines_chain with (prev := None); [auto|].
  apply single_spaces_chain. reflexivity.
Qed.

Lemma whitespace_cases prev c :
  R_whitespace prev c = true ->
  c <> TAB /\ c <> CR /\ (opt_test is_sp prev = true -> c <> SP /\ c <> NL).
Proof.
  unfold R_whitespace. intros H.
  apply andb_true_iff in H as [H Hsp]. apply andb_true_iff in H as [Htab Hcr].
  apply negb_true_iff in Hcr, Htab, Hsp. apply N.eqb_neq in Hcr, Htab.
  repeat split; auto; intros ->; rewrite H in Hsp; discriminate.
Qed.

Lemma ws_from_cons prev c s :
  ws_from prev (c :: s) = true -> R_whitespace prev c = true /\ ws_from (Some c) s = true.
Proof.
  unfold ws_from. cbn [chain last_opt]. intros H. apply andb_true_iff in H as [H1 H2].
  apply andb_true_iff in H1 as [Hc Hs]. now rewrite Hc, Hs, H2.
Qed.

(** In normal text a space is followed by a character that is neither
    blank nor a newline. *)
Lemma ws_from_after_space s :
  ws_from (Some SP) s = true ->
  exists d s', s = d :: s' /\ is_blank d = false /\ d <> NL.
Proof.
  intros H. destruct s as [|d s']; [discriminate|].
  apply ws_from_cons in H as [H _]. exists d, s'. split; [reflexivity|].
  apply whitespace_cases in H as (Ht & _ & Hsp). destruct (Hsp eq_refl) as [Hs Hn].
  split; [|exact Hn]. unfold is_blank. apply N.eqb_neq in Ht, Hs. now rewrite Ht, Hs.
Qed.

Lemma normalize_whitespace_on_normal y :
  whitespace_normal y = true -> normalize_whitespace y = y.
Proof.
  intros H. change (ws_from None y = true) in H.
  assert (Ha : sub_from (m_run 1 is_blank [SP]) 0 None y = y).
  { apply (sub_from_id _ (fun p r => ws_from p r = true)); [|exact H].
    intros prev c s Hi. apply ws_from_cons in Hi as [Hc Hs]. split; [exact Hs|].
    unfold m_run. cbn [take_while]. destruct (is_blank c) eqn:Eb; [left|now right].
    apply whitespace_cases in Hc as (Ht & _).
    apply blank_cases in Eb as [->| ->]; [|congruence].
    destruct (ws_from_after_space s Hs) as (d & s' & -> & Hd & _).
    cbn [take_while]. now rewrite Hd. }
  assert (Hb : sub_from m_line_ending 0 None y = y).
  { apply (sub_from_id _ (fun p r => ws_from p r = true)); [|exact H].
    intros prev c s Hi. apply ws_from_cons in Hi as [Hc Hs]. split; [exact Hs|].
    right. unfold m_line_ending. apply whitespace_cases in Hc as (_ & Hcr & _).
    apply N.eqb_neq in Hcr. now rewrite Hcr. }
  assert (Hc : sub_from m_trailing_blanks 0 None y = y).
  { apply (sub_from_id _ (fun p r => ws_from p r = true)); [|exact H].
    intros prev c s Hi. apply ws_from_cons in Hi as [Hc Hs]. split; [exact Hs|].
    right. unfold m_trailing_blanks. cbn [take_while drop_while].
    destruct (is_blank c) eqn:Eb; [|reflexivity].
    apply whitespace_cases in Hc as (Ht & _).
    apply blank_cases in Eb as [->| ->]; [|congruence].
    destruct (ws_from_after_space s Hs) as (d & s' & -> & Hd & Hn).
    cbn [take_while drop_while]. rewrite Hd. cbn [length Nat.leb].
    apply N.eqb_neq in Hn. now rewrite Hn. }
  unfold normalize_whitespace, re_sub. now rewrite Ha, Hb, Hc.
Qed.

(** X8: what [normalize_whitespace] returns holds no tab and no carriage
    return, no two spaces in a row, no space right before a newline and no
    space at its end. *)
Theorem normalize_whitespace_result x :
  forallb (fun c => negb (c =? TAB) && negb (c =? CR)) (normalize_whitespace x) = true
  /\ (forall u v, normalize_whitespace x <> u ++ SP :: SP :: v)
  /\ (forall u v, normalize_whitespace x <> u ++ SP :: NL :: v)
  /\ (forall u, normalize_whitespace x <> u ++ [SP]).
Proof.
  pose proof (normalize_whitespace_normal x) as H.
  unfold whitespace_normal in H. apply andb_true_iff in H as [Hc He].
  set (y := normalize_whitespace x) in *. clearbody y. repeat split.
  - clear He. generalize (@None N) as prev, Hc. clear Hc.
    induction y as [|c y IH]; intros prev H; [reflexivity|].
    cbn [chain] in H. apply andb_true_iff in H as [H1 H2]. cbn [forallb].
    rewrite (IH _ H2), andb_true_r. unfold R_whitespace in H1.
    now apply andb_true_iff in H1 as [H1 _].
  - intros u v ->. rewrite chain_app in Hc. apply andb_true_iff in Hc as [_ Hc].
    cbn [chain] in Hc. apply andb_true_iff in Hc as [_ Hc].
    apply andb_true_iff in Hc as [Hc _].
    apply whitespace_cases in Hc as (_ & _ & Hc). now destruct (Hc eq_refl).
  - intros u v ->. rewrite chain_app in Hc. apply andb_true_iff in Hc as [_ Hc].
    cbn [chain] in Hc. apply andb_true_iff in Hc as [_ Hc].
    apply andb_true_iff in Hc as [Hc _].
    apply whitespace_cases in Hc as (_ & _ & Hc). now destruct (Hc eq_refl).
  - intros u ->. rewrite last_opt_app in He. discriminate.
Qed.

(** X9: normalising whitespace twice is normalising it once. *)
Theorem normalize_whitespace_idempotent x :
  normalize_whitespace (normalize_whitespace x) = normalize_whitespace x.
Proof. apply normalize_whitespace_on_normal, normalize_whitespace_normal. Qed.

(** ** Newline runs *)

Lemma run_match_len k p rep s len r :
  m_run k p rep None s = Some (len, r) ->
  len = length (take_while p s) /\ (k <= len)%nat /\ r = rep.
Proof.
  unfold m_run. destruct (Nat.leb k (length (take_while p s))) eqn:E; [|discriminate].
  intros [= <- <-]. apply Nat.leb_le in E. auto.
Qed.

Lemma run_nomatch_len k p rep s :
  m_run k p rep None s = None -> (length (take_while p s) < k)%nat.
Proof.
  unfold m_run. destruct (Nat.leb k (length (take_while p s))) eqn:E; [discriminate|].
  intros _. now apply Nat.leb_gt in E.
Qed.

Lemma leading_newlines_drop s : leading_newlines (drop_while is_nl s) = 0%nat.
Proof.
  unfold leading_newlines. destruct (drop_while is_nl s) as [|c r] eqn:E; [reflexivity|].
  apply drop_while_head in E. cbn [take_while]. now rewrite E.
Qed.

Lemma leading_newlines_repeat j z :
  leading_newlines (repeat NL j ++ z) = (j + leading_newlines z)%nat.
Proof.
  unfold leading_newlines. induction j as [|j IH]; [reflexivity|].
  cbn [repeat app take_while]. change (is_nl NL) with true. cbn iota.
  cbn [length]. now rewrite IH.
Qed.

Lemma newline_runs_repeat k j z :
  (j <= k)%nat -> leading_newlines z = 0%nat -> newline_runs_le k z = true ->
  newline_runs_le k (repeat NL j ++ z) = true.
Proof.
  intros Hj Hz Hr. induction j as [|j IH]; [exact Hr|].
  cbn [repeat app newline_runs_le]. rewrite IH by lia. rewrite andb_true_r.
  change (NL :: repeat NL j ++ z) with (repeat NL (S j) ++ z).
  fold (leading_newlines (repeat NL (S j) ++ z)).
  rewrite leading_newlines_repeat, Hz. apply Nat.leb_le. lia.
Qed.

(** Collapsing the runs longer than [k] to [k] leaves runs of at most [k]. *)
Lemma newline_runs_collapsed k x :
  newline_runs_le k (re_sub (m_run (S k) is_nl (repeat NL k)) x) = true
  /\ leading_newlines (re_sub (m_run (S k) is_nl (repeat NL k)) x)
     = Nat.min (leading_newlines x) k.
Proof.
  pattern x, (re_sub (m_run (S k) is_nl (repeat NL k)) x).
  apply re_sub_ind; [auto with scan | split; reflexivity | |]; clear x.
  - intros c s Hm [IH1 IH2]. apply run_nomatch_len in Hm.
    fold (leading_newlines (c :: s)) in Hm.
    assert (Hlead : leading_newlines (c :: re_sub (m_run (S k) is_nl (repeat NL k)) s)
                    = leading_newlines (c :: s)).
    { unfold leading_newlines in *. cbn [take_while] in *.
      destruct (is_nl c); [|reflexivity]. cbn [length] in *. rewrite IH2. lia. }
    split.
    + cbn [newline_runs_le]. rewrite IH1, andb_true_r.
      fold (leading_newlines (c :: re_sub (m_run (S k) is_nl (repeat NL k)) s)).
      rewrite Hlead. apply Nat.leb_le. lia.
    + rewrite Hlead. lia.
  - intros c s len rep Hm [IH1 IH2].
    apply run_match_len in Hm as (-> & Hlen & ->).
    fold (leading_newlines (c :: s)) in *.
    assert (Hc : is_nl c = true).
    { unfold leading_newlines in Hlen. cbn [take_while] in Hlen.
      destruct (is_nl c); [reflexivity | simpl in Hlen; lia]. }
    assert (Hs : skipn (Nat.pred (leading_newlines (c :: s))) s = drop_while is_nl s).
    { unfold leading_newlines. cbn [take_while]. rewrite Hc. cbn [length Nat.pred].
      apply skipn_take_while. }
    rewrite Hs in *. rewrite leading_newlines_drop in IH2. cbn [Nat.min] in IH2.
    split.
    + now apply newline_runs_repeat.
    + rewrite leading_newlines_repeat, IH2. lia.
Qed.

Lemma newline_runs_le_no_run k s :
  newline_runs_le k s = true -> ~ has_newline_run (S k) s.
Proof.
  intros H (u & v & ->). induction u as [|c u IH].
  - cbn [app] in H. destruct (repeat NL (S k) ++ v) eqn:E; [discriminate|].
    cbn [newline_runs_le] in H. apply andb_true_iff in H as [H _].
    rewrite <- E in H. fold (leading_newlines (repeat NL (S k) ++ v)) in H.
    rewrite leading_newlines_repeat in H. apply Nat.leb_le in H. lia.
  - cbn [app newline_runs_le] in H. apply andb_true_iff in H as [_ H]. auto.
Qed.

Lemma newline_runs_fixed k rep s :
  newline_runs_le k s = true -> re_sub (m_run (S k) is_nl rep) s = s.
Proof.
  induction s as [|c s IH]; [reflexivity|]. intros H.
  cbn [newline_runs_le] in H. apply andb_true_iff in H as [Hc Hs].
  rewrite re_sub_cons by auto with scan. unfold m_run at 1.
  apply Nat.leb_le in Hc.
  destruct (Nat.leb (S k) (length (take_while is_nl (c :: s)))) eqn:E.
  - apply Nat.leb_le in E. lia.
  - now rewrite (IH Hs).
Qed.

Lemma remove_excessive_newlines_runs self x :
  newline_runs_le (if preserve_paragraphs self then 2 else 1)
    (remove_excessive_newlines self x) = true.
Proof.
  unfold remove_excessive_newlines. destruct (preserve_paragraphs self).
  - exact (proj1 (newline_runs_collapsed 2 x)).
  - exact (proj1 (newline_runs_collapsed 1 x)).
Qed.

(** X10: what [remove_excessive_newlines] returns holds no three newlines
    in a row when [preserve_paragraphs] is set, and no two otherwise. *)
Theorem remove_excessive_newlines_result self x :
  if preserve_paragraphs self
  then ~ has_newline_run 3 (remove_excessive_newlines self x)
  else ~ has_newline_run 2 (remove_excessive_newlines self x).
Proof.
  pose proof (remove_excessive_newlines_runs self x) as H.
  destruct (preserve_paragraphs self); now apply newline_runs_le_no_run.
Qed.

(** X11: collapsing newline runs twice is collapsing them once. *)
Theorem remove_excessive_newlines_idempotent self x :
  remove_excessive_newlines self (remove_excessive_newlines self x)
  = remove_excessive_newlines self x.
Proof.
  pose proof (remove_excessive_newlines_runs self x) as H.
  unfold remove_excessive_newlines at 1.
  destruct (preserve_paragraphs self); now apply newline_runs_fixed.
Qed.

(** ** What the scans keep *)

Lemma firstn_take_while p s : firstn (length (take_while p s)) s = take_while p s.
Proof.
  induction s as [|c s IH]; [reflexivity|]. cbn [take_while].
  destruct (p c); [|reflexivity]. cbn [length firstn]. now rewrite IH.
Qed.

Lemma filter_none (P p : N -> bool) l :
  (forall c, p c = true -> P c = false) -> forallb p l = true -> filter P l = [].
Proof.
  intros HP. induction l as [|c l IH]; [reflexivity|]. intros H.
  cbn [forallb] in H. apply andb_true_iff in H as [Hc Hl].
  cbn [filter]. now rewrite (HP _ Hc), (IH Hl).
Qed.

Lemma filter_take_while (P p : N -> bool) s :
  (forall c, p c = true -> P c = false) -> filter P (take_while p s) = [].
Proof. intros HP. apply (filter_none P p); [exact HP | apply take_while_all]. Qed.

(** A scan whose every match has the same [P]-characters as its
    replacement keeps the [P]-characters of the text. *)
Lemma sub_from_filter (P : N -> bool) m :
  (forall prev s len rep, m prev s = Some (len, rep) ->
     (1 <= len)%nat /\ filter P rep = filter P (firstn len s)) ->
  forall s k prev, filter P (sub_from m k prev s) = filter P (skipn k s).
Proof.
  intros Hm s; induction s as [|c s IH]; intros k prev.
  - destruct k; reflexivity.
  - destruct k as [|k]; cbn [sub_from skipn]; [|apply IH].
    destruct (m prev (c :: s)) as [[len rep]|] eqn:E.
    + destruct (Hm _ _ _ _ E) as [Hlen Hf]. rewrite filter_app, Hf, IH.
      destruct len as [|len]; [lia|]. cbn [Nat.pred].
      rewrite <- filter_app.
      change (firstn (S len) (c :: s) ++ skipn len s)
        with (firstn (S len) (c :: s) ++ skipn (S len) (c :: s)).
      now rewrite firstn_skipn.
    + cbn [filter]. now rewrite (IH 0%nat).
Qed.

Lemma run_filter (P p : N -> bool) k rep s :
  (forall c, p c = true -> P c = false) -> filter P rep = [] ->
  filter P (re_sub (m_run (S k) p rep) s) = filter P s.
Proof.
  intros HP Hrep. unfold re_sub. rewrite sub_from_filter; [reflexivity|].
  intros prev r len rp Hm. rewrite (stateless_run _ _ _ prev None) in Hm.
  apply run_match_len in Hm as (-> & Hlen & ->). split; [lia|].
  now rewrite firstn_take_while, (filter_take_while P p _ HP).
Qed.

(** X12: [remove_excessive_newlines] removes newlines and nothing else. *)
Theorem remove_excessive_newlines_keeps_text self x :
  filter not_nl (remove_excessive_newlines self x) = filter not_nl x.
Proof.
  assert (HP : forall c, is_nl c = true -> not_nl c = false).
  { intros c Hc. unfold not_nl. unfold is_nl in Hc. now rewrite Hc. }
  unfold remove_excessive_newlines.
  destruct (preserve_paragraphs self); now apply (run_filter not_nl is_nl).
Qed.

Lemma blank_not_nonspace c : is_blank c = true -> nonspace c = false.
Proof. intros H. unfold nonspace. now rewrite (blank_is_space _ H). Qed.

Lemma space_not_nonspace c : isspace c = true -> nonspace c = false.
Proof. intros H. unfold nonspace. now rewrite H. Qed.

(** X13: [normalize_whitespace] changes whitespace only: the other
    characters come out as they went in, in the same order. *)
Theorem normalize_whitespace_keeps_text x :
  filter nonspace (normalize_whitespace x) = filter nonspace x.
Proof.
  unfold normalize_whitespace.
  unfold re_sub at 1. rewrite sub_from_filter.
  2:{ intros prev r len rep Hm. rewrite (stateless_trailing_blanks prev None) in Hm.
      destruct r as [|c r]; [discriminate|].
      apply trailing_blanks_match in Hm as (Hc & -> & -> & _). split; [lia|].
      cbn [firstn filter]. rewrite (blank_not_nonspace _ Hc), firstn_take_while.
      symmetry. apply (filter_take_while nonspace is_blank), blank_not_nonspace. }
  unfold re_sub at 1. cbn [skipn]. rewrite sub_from_filter.
  2:{ intros prev r len rep Hm. rewrite (stateless_line_ending prev None) in Hm.
      destruct r as [|c r]; [discriminate|].
      apply line_ending_match in Hm as (-> & -> & [[-> (s' & ->)] | [-> _]]);
        split; try lia; reflexivity. }
  cbn [skipn]. apply (run_filter nonspace is_blank); [|reflexivity].
  apply blank_not_nonspace.
Qed.

(** ** Sentence re-segmentation *)

Lemma doubled_newlines_to_space t g :
  doubled t g -> re_sub (m_run 1 is_nl [SP]) g = re_sub (m_run 1 is_nl [SP]) t.
Proof.
  intros H.
  set (f := re_sub (m_run 1 is_nl [SP])).
  assert (HP : f (drop_while is_nl g) = f (drop_while is_nl t)
               /\ starts_nl g = starts_nl t).
  { induction H as [|c t g _ [IHa IHb]|t g _ [IHa _]]; [split; reflexivity| |].
    - split; [|reflexivity]. cbn [drop_while].
      destruct (is_nl c) eqn:Ec; [exact IHa|].
      unfold f. rewrite 2 newlines_to_space_other by exact Ec. f_equal.
      rewrite (newlines_to_space_decomp g), (newlines_to_space_decomp t).
      fold f. now rewrite IHa, IHb.
    - split; [exact IHa | reflexivity]. }
  destruct HP as [Ha Hb]. unfold f.
  rewrite (newlines_to_space_decomp g), (newlines_to_space_decomp t).
  fold f. now rewrite Ha, Hb.
Qed.

Lemma filter_strip (P : N -> bool) s :
  (forall c, isspace c = true -> P c = false) -> filter P (strip s) = filter P s.
Proof.
  intros HP.
  assert (Hl : forall r, filter P (drop_while isspace r) = filter P r).
  { intros r. rewrite <- (take_drop_while isspace r) at 2.
    now rewrite filter_app, (filter_take_while P isspace _ HP). }
  unfold strip, rstrip, lstrip.
  rewrite filter_rev, Hl, filter_rev, rev_involutive. apply Hl.
Qed.

Lemma last_opt_some u p : last_opt None u = Some p -> exists u', u = u' ++ [p].
Proof.
  destruct u as [|c u] using rev_ind; [discriminate|].
  rewrite last_opt_app. cbn [last_opt]. intros [= ->]. eauto.
Qed.

Lemma doubled_chain t g :
  doubled t g -> forall prev,
  chain R_segmented prev t = true -> chain R_resegmented prev g = true.
Proof.
  assert (Hw : forall p c, R_segmented p c = true -> R_resegmented p c = true).
  { intros p c H. unfold R_resegmented. destruct (c =? NL) eqn:E; [|exact H].
    unfold R_segmented in H. rewrite E in H. destruct p as [q|]; [|discriminate].
    cbn [opt_test] in *. now rewrite H. }
  induction 1 as [|c t g _ IH|t g _ IH]; intros prev H; [reflexivity| |];
    cbn [chain] in H |- *; apply andb_true_iff in H as [Hc Ht].
  - now rewrite (Hw _ _ Hc), (IH _ Ht).
  - rewrite (Hw _ _ Hc), (IH _ Ht). reflexivity.
Qed.

Section Resegmentation.

Variable decimal_table : N -> bool.
Variable alnum_table : N -> bool.

(** The text as the sentence breaks leave it. *)
Definition broken_text (x : str) : str :=
  re_sub m_sentence_break
    (strip (re_sub (m_run 1 isspace [SP]) (re_sub (m_run 1 is_nl [SP]) x))).

Lemma broken_text_segmented x : segmented (broken_text x) = true.
Proof.
  apply sentence_break_segmented, strip_tidy with (prev := None), collapse_chain.
  reflexivity.
Qed.

(** The three substitutions after the sentence breaks find nothing. *)
Lemma remove_mid_sentence_newlines_core x :
  remove_mid_sentence_newlines decimal_table alnum_table x
  = re_sub (m_paragraph_marker (isdecimal decimal_table)) (broken_text x).
Proof.
  pose proof (broken_text_segmented x) as Hseg.
  apply andb_true_iff in Hseg as [Hch _].
  unfold remove_mid_sentence_newlines. fold (broken_text x).
  change (re_sub (m_abbreviation (isword alnum_table)) (broken_text x))
    with (sub_from (m_abbreviation (isword alnum_table)) 0 None (broken_text x)).
  rewrite abbreviation_noop by exact Hch.
  change (re_sub (m_decimal (isdecimal decimal_table)) (broken_text x))
    with (sub_from (m_decimal (isdecimal decimal_table)) 0 None (broken_text x)).
  rewrite decimal_noop by exact Hch.
  change (re_sub m_spaces_nl (broken_text x))
    with (sub_from m_spaces_nl 0 None (broken_text x)).
  now rewrite spaces_nl_noop by exact Hch.
Qed.

(** On segmented text only the paragraph markers act. *)
Lemma remove_mid_sentence_newlines_on_segmented y :
  segmented y = true ->
  remove_mid_sentence_newlines decimal_table alnum_table y
  = re_sub (m_paragraph_marker (isdecimal decimal_table)) y.
Proof.
  intros H. rewrite remove_mid_sentence_newlines_core. f_equal.
  pose proof H as Hseg. change (seg_from None y = true) in H.
  unfold segmented in Hseg. apply andb_true_iff in Hseg as [Hch Hend].
  unfold broken_text.
  change (re_sub (m_run 1 is_nl [SP]) y) with (sub_from (m_run 1 is_nl [SP]) 0 None y).
  rewrite (newlines_to_space_segmented _ _ H).
  assert (Ht : tidy (map unbreak y) = true).
  { apply unbreak_tidy. unfold segmented. now rewrite Hch, Hend. }
  assert (Hz : chain R_tidy None (map unbreak y) = true)
    by (unfold tidy in Ht; now apply andb_true_iff in Ht as [Ht _]).
  change (re_sub (m_run 1 isspace [SP]) (map unbreak y))
    with (sub_from (m_run 1 isspace [SP]) 0 None (map unbreak y)).
  rewrite (spaces_fixed _ _ Hz), (tidy_strip _ Ht).
  exact (rebreak (length y) y None (le_n _) Hch (segmented_starts _ Hch)).
Qed.

(** X14: in [remove_mid_sentence_newlines] the abbreviation rule, the
    decimal rule and the removal of spaces before newlines never change the
    text, whatever the input: the result is that of the sentence breaks
    followed by the paragraph markers. *)
Theorem remove_mid_sentence_newlines_dead_rules x :
  remove_mid_sentence_newlines decimal_table alnum_table x
  = re_sub (m_paragraph_marker (isdecimal decimal_table))
      (re_sub m_sentence_break
         (strip (re_sub (m_run 1 isspace [SP]) (re_sub (m_run 1 is_nl [SP]) x)))).
Proof. exact (remove_mid_sentence_newlines_core x). Qed.

(** X15: [remove_mid_sentence_newlines] changes whitespace only: the other
    characters come out as they went in, in the same order. *)
Theorem remove_mid_sentence_newlines_keeps_text x :
  filter nonspace (remove_mid_sentence_newlines decimal_table alnum_table x)
  = filter nonspace x.
Proof.
  rewrite remove_mid_sentence_newlines_core. unfold broken_text.
  unfold re_sub at 1. rewrite sub_from_filter.
  2:{ intros prev r len rep Hm. rewrite (stateless_paragraph_marker _ prev None) in Hm.
      destruct r as [|c r]; [discriminate|].
      apply paragraph_marker_match in Hm as (k & -> & -> & ->).
      split; [lia | reflexivity]. }
  unfold re_sub at 1. cbn [skipn]. rewrite sub_from_filter.
  2:{ intros prev r len rep Hm. rewrite (stateless_sentence_break prev None) in Hm.
      destruct r as [|c r]; [discriminate|].
      apply sentence_break_match in Hm as (Hc & _ & -> & ->). split; [lia|].
      cbn [firstn filter]. rewrite firstn_take_while.
      rewrite (filter_take_while nonspace isspace _ space_not_nonspace).
      reflexivity. }
  cbn [skipn]. rewrite (filter_strip nonspace) by exact space_not_nonspace.
  rewrite (run_filter nonspace isspace) by (exact space_not_nonspace || reflexivity).
  apply (run_filter nonspace is_nl); [|reflexivity].
  intros c Hc. apply space_not_nonspace, nl_is_space. exact Hc.
Qed.

Lemma remove_mid_sentence_newlines_chain x :
  chain R_resegmented None (remove_mid_sentence_newlines decimal_table alnum_table x) = true.
Proof.
  rewrite remove_mid_sentence_newlines_core.
  pose proof (broken_text_segmented x) as H. apply andb_true_iff in H as [H _].
  exact (doubled_chain _ _ (paragraph_marker_doubled _ _) None H).
Qed.

(** X16: every newline in what [remove_mid_sentence_newlines] returns comes
    right after one of [.!?:;] or right after another newline. *)
Theorem remove_mid_sentence_newlines_breaks x u v :
  remove_mid_sentence_newlines decimal_table alnum_table x = u ++ NL :: v ->
  exists u' p, u = u' ++ [p] /\ (is_sentence_end p = true \/ p = NL).
Proof.
  intros E. pose proof (remove_mid_sentence_newlines_chain x) as H.
  rewrite E, chain_app in H. apply andb_true_iff in H as [_ H].
  cbn [chain] in H. apply andb_true_iff in H as [H _].
  unfold R_resegmented in H. rewrite N.eqb_refl in H.
  destruct (last_opt None u) as [p|] eqn:El; [|discriminate].
  apply last_opt_some in El as (u' & ->). exists u', p. split; [reflexivity|].
  cbn [opt_test] in H. apply orb_true_iff in H as [H|H]; [now left|right].
  now apply N.eqb_eq.
Qed.

(** X17: re-segmenting twice is re-segmenting once. *)
Theorem remove_mid_sentence_newlines_idempotent x :
  remove_mid_sentence_newlines decimal_table alnum_table
    (remove_mid_sentence_newlines decimal_table alnum_table x)
  = remove_mid_sentence_newlines decimal_table alnum_table x.
Proof.
  pose proof (broken_text_segmented x) as Hseg.
  rewrite (remove_mid_sentence_newlines_core x).
  set (t := broken_text x) in *.
  set (g := re_sub (m_paragraph_marker (isdecimal decimal_table)) t).
  assert (Hg : remove_mid_sentence_newlines decimal_table alnum_table g
               = remove_mid_sentence_newlines decimal_table alnum_table t).
  { unfold remove_mid_sentence_newlines.
    now rewrite (doubled_newlines_to_space t g (paragraph_marker_doubled _ t)). }
  rewrite Hg. now apply remove_mid_sentence_newlines_on_segmented.
Qed.

End Resegmentation.

Lemma remove_mid_sentence_newlines_breaks_witness :
  let out := remove_mid_sentence_newlines (fun _ => false) (fun _ => false)
               (lit "Seen today. Day 3, fine") in
  out = lit "Seen today." ++ NL :: NL :: lit "Day 3, fine"
  /\ exists u' p, lit "Seen today." ++ [NL] = u' ++ [p]
                  /\ (is_sentence_end p = true \/ p = NL).
Proof.
  intros out. split; [vm_compute; reflexivity|].
  apply (remove_mid_sentence_newlines_breaks (fun _ => false) (fun _ => false)
           (lit "Seen today. Day 3, fine") (lit "Seen today." ++ [NL])
           (lit "Day 3, fine")).
  vm_compute. reflexivity.
Defined.

(** ** The line filter *)

Lemma split_nl_lines_no_nl s : forallb no_nl (split_nl s) = true.
Proof.
  induction s as [|c s IH]; [reflexivity|]. cbn [split_nl].
  destruct (c =? NL) eqn:E; [exact IH|].
  destruct (split_nl s) as [|l ls]; cbn [forallb no_nl] in *; rewrite E; [reflexivity|].
  exact IH.
Qed.

Lemma kept_lines_no_nl (f : str -> bool) s :
  forallb no_nl (filter f (split_nl s)) = true.
Proof.
  apply (forallb_filter_lines (fun c => negb (c =? NL))), split_nl_lines_no_nl.
Qed.

Lemma filter_filter_impl (f g : str -> bool) ls :
  (forall l, g l = true -> f l = true) -> filter g (filter f ls) = filter g ls.
Proof.
  intros H. induction ls as [|l ls IH]; [reflexivity|]. cbn [filter].
  destruct (f l) eqn:Ef; cbn [filter]; rewrite IH; [reflexivity|].
  destruct (g l) eqn:Eg; [|reflexivity]. now rewrite (H _ Eg) in Ef.
Qed.

Lemma keep_line_threshold self self' l :
  (min_line_length self <= min_line_length self')%Z ->
  keep_line self' l = true -> keep_line self l = true.
Proof.
  unfold keep_line. intros Hm. destruct (strip l); [discriminate|].
  intros H. apply Z.leb_le in H. apply Z.leb_le. lia.
Qed.

(** Filtering what a filter with a threshold at most as high has let
    through. *)
Lemma remove_empty_lines_twice self self' x :
  (forall l, keep_line self' l = true -> keep_line self l = true) ->
  remove_empty_lines self' (remove_empty_lines self x) = remove_empty_lines self' x.
Proof.
  intros H. unfold remove_empty_lines.
  rewrite <- (filter_filter_impl (keep_line self) (keep_line self') (split_nl x) H).
  pose proof (kept_lines_no_nl (keep_line self) x) as Hnl.
  destruct (filter (keep_line self) (split_nl x)) as [|l K]; [reflexivity|].
  now rewrite split_join by (discriminate || exact Hnl).
Qed.

(** X18: the lines of what [remove_empty_lines] returns are the lines of
    the input that pass the test, in their order and as they were (a kept
    line is not stripped); when none passes, the result is empty. *)
Theorem remove_empty_lines_result self x :
  (filter (keep_line self) (split_nl x) = [] /\ remove_empty_lines self x = [])
  \/ split_nl (remove_empty_lines self x) = filter (keep_line self) (split_nl x).
Proof.
  unfold remove_empty_lines.
  pose proof (kept_lines_no_nl (keep_line self) x) as Hnl.
  destruct (filter (keep_line self) (split_nl x)) as [|l K]; [left; auto|right].
  now rewrite split_join by (discriminate || exact Hnl).
Qed.

(** X19: filtering with one minimum length and then with one at least as
    large is filtering with the second at once; so filtering twice with the
    same configuration is filtering once. *)
Theorem remove_empty_lines_raise_threshold self self' x :
  (min_line_length self <= min_line_length self')%Z ->
  remove_empty_lines self' (remove_empty_lines self x) = remove_empty_lines self' x.
Proof.
  intros H. apply remove_empty_lines_twice. intros l. now apply keep_line_threshold.
Qed.

Lemma remove_empty_lines_raise_threshold_witness :
  let short := {| preserve_paragraphs := true; min_line_length := 2; verbose := false |} in
  let x := lit "ab" ++ [NL] ++ lit "c" ++ [NL; NL] ++ lit "defg" in
  (min_line_length short <= min_line_length default_config)%Z
  /\ remove_empty_lines default_config (remove_empty_lines short x)
     = remove_empty_lines default_config x.
Proof.
  intros short x. split; [vm_compute; discriminate|].
  apply (remove_empty_lines_raise_threshold short default_config x).
  vm_compute. discriminate.
Defined.

(** ** The pipeline as a whole *)

Lemma remove_empty_lines_stripped self t g :
  segmented t = true -> doubled t g ->
  strip (remove_empty_lines self g) = remove_empty_lines self g.
Proof.
  intros Hseg Hd. unfold remove_empty_lines.
  rewrite (doubled_filter (keep_line self) t g (keep_line_nil self) Hd).
  apply segmented_strip, join_segmented.
  destruct t as [|c t]; [reflexivity|].
  apply lines_ok_filter, split_segmented; [exact Hseg | discriminate].
Qed.

Section Whole.

Variable nfc : str -> str.
Variable decimal_table : N -> bool.
Variable alnum_table : N -> bool.

Lemma preprocess_text_short self x :
  preprocess_text nfc decimal_table alnum_table self x
  = remove_empty_lines self
      (remove_mid_sentence_newlines decimal_table alnum_table
         (normalize_whitespace
            (clean_special_characters
               (fix_common_encoding_issues
                  (remove_control_characters (normalize_unicode nfc x)))))).
Proof.
  unfold preprocess_text. rewrite remove_mid_sentence_newlines_after_excessive.
  match goal with
  | |- context [remove_mid_sentence_newlines _ _ ?f] =>
      destruct (remove_mid_sentence_newlines_shape decimal_table alnum_table f)
        as (t & Hseg & Hd)
  end.
  exact (remove_empty_lines_stripped self _ _ Hseg Hd).
Qed.

(** X20: in [preprocess_text] the call of [remove_excessive_newlines] and
    the final [strip()] are redundant: without them the result is the same
    on every input. *)
Theorem preprocess_text_redundant_steps self x :
  preprocess_text nfc decimal_table alnum_table self x
  = remove_empty_lines self
      (remove_mid_sentence_newlines decimal_table alnum_table
         (normalize_whitespace
            (clean_special_characters
               (fix_common_encoding_issues
                  (remove_control_characters (normalize_unicode nfc x)))))).
Proof. exact (preprocess_text_short self x). Qed.

(** X21: every newline of the output comes right after one of [.!?:;]:
    each line but the last ends a sentence. *)
Theorem preprocess_text_breaks self x u v :
  preprocess_text nfc decimal_table alnum_table self x = u ++ NL :: v ->
  exists u' p, u = u' ++ [p] /\ is_sentence_end p = true.
Proof.
  intros E. pose proof (preprocess_text_segmented nfc decimal_table alnum_table self x) as H.
  unfold segmented in H. apply andb_true_iff in H as [H _].
  rewrite E, chain_app in H. apply andb_true_iff in H as [_ H].
  cbn [chain] in H. apply andb_true_iff in H as [H _].
  unfold R_segmented in H. rewrite N.eqb_refl in H.
  destruct (last_opt None u) as [p|] eqn:El; [|discriminate].
  apply last_opt_some in El as (u' & ->). eauto.
Qed.

(** X22: the only whitespace in the output is the space and the newline
    (no tab, carriage return or no-break space); no two whitespace
    characters stand side by side; and the output neither begins nor ends
    with whitespace. *)
Theorem preprocess_text_single_whitespace self x :
  forallb (fun c => nonspace c || (c =? SP) || (c =? NL))
    (preprocess_text nfc decimal_table alnum_table self x) = true
  /\ (forall u a b v,
        preprocess_text nfc decimal_table alnum_table self x = u ++ a :: b :: v ->
        isspace a = true -> isspace b = false)
  /\ strip (preprocess_text nfc decimal_table alnum_table self x)
     = preprocess_text nfc decimal_table alnum_table self x.
Proof.
  pose proof (preprocess_text_segmented nfc decimal_table alnum_table self x) as H.
  set (y := preprocess_text nfc decimal_table alnum_table self x) in *. clearbody y.
  split; [|split].
  - unfold segmented in H. apply andb_true_iff in H as [H _].
    revert H. generalize (@None N) as prev.
    induction y as [|c y IH]; intros prev H; [reflexivity|].
    cbn [chain] in H. apply andb_true_iff in H as [Hc Hy]. cbn [forallb].
    rewrite (IH _ Hy), andb_true_r. unfold nonspace.
    apply R_segmented_cases in Hc as [[-> _]|[(-> & _)|(Hc & _)]];
      [reflexivity | reflexivity | now rewrite Hc].
  - intros u a b v -> Ha. unfold segmented in H. apply andb_true_iff in H as [H _].
    rewrite chain_app in H. apply andb_true_iff in H as [_ H].
    cbn [chain] in H. apply andb_true_iff in H as [_ H].
    apply andb_true_iff in H as [H _].
    now apply (R_segmented_after_space a b Ha) in H.
  - now apply segmented_strip.
Qed.

(** X23: the output holds no control character of the class that
    [remove_control_characters] deletes, no en dash, no em dash and no
    ellipsis glyph. *)
Theorem preprocess_text_characters self x :
  forallb (fun c => negb (is_control c) && negb (in_class [EN_DASH; EM_DASH] c)
                    && negb (c =? ELLIPSIS))
    (preprocess_text nfc decimal_table alnum_table self x) = true.
Proof. exact (preprocess_text_plain nfc decimal_table alnum_table self x). Qed.

Lemma ascii_plain s :
  forallb is_ascii s = true -> forallb printable s = true -> forallb plain s = true.
Proof.
  rewrite !forallb_forall. intros Ha Hp c Hc. specialize (Ha c Hc).
  specialize (Hp c Hc). unfold plain. rewrite Hp. unfold is_ascii in Ha.
  unfold in_class. cbn [existsb andb]. char_bool.
Qed.

Lemma ascii_no_artifact_letter s :
  forallb is_ascii s = true -> forallb no_artifact_letter s = true.
Proof.
  rewrite !forallb_forall. intros Ha c Hc. specialize (Ha c Hc).
  unfold is_ascii in Ha. unfold no_artifact_letter. char_bool.
Qed.

Lemma preprocess_text_ascii self x :
  nfc x = x -> forallb is_ascii x = true ->
  forallb is_ascii (preprocess_text nfc decimal_table alnum_table self x) = true.
Proof.
  intros Hnfc Hx. rewrite preprocess_text_short. unfold normalize_unicode.
  rewrite Hnfc.
  assert (Hr : forallb is_ascii (remove_control_characters x) = true).
  { unfold remove_control_characters, re_sub. apply sub_from_forallb; [|exact Hx].
    intros prev r len rep. unfold m_class. destruct r as [|c r]; [discriminate|].
    destruct (is_control c); [|discriminate]. now intros [= _ <-]. }
  rewrite (fix_common_encoding_issues_fixed _ (ascii_no_artifact_letter _ Hr)).
  rewrite (clean_special_characters_fixed _
             (ascii_plain _ Hr (remove_control_characters_printable x))).
  apply remove_empty_lines_forallb; [reflexivity|].
  apply remove_mid_sentence_newlines_forallb; try reflexivity.
  apply normalize_whitespace_forallb; try reflexivity. exact Hr.
Qed.

(** X24: on ASCII input the pipeline is idempotent, given that NFC leaves
    ASCII text as it is. *)
Theorem preprocess_text_idempotent_on_ascii self x :
  (forall s, forallb is_ascii s = true -> nfc s = s) ->
  forallb is_ascii x = true ->
  preprocess_text nfc decimal_table alnum_table self
    (preprocess_text nfc decimal_table alnum_table self x)
  = preprocess_text nfc decimal_table alnum_table self x.
Proof.
  intros Hnfc Hx.
  pose proof (preprocess_text_ascii self x (Hnfc x Hx) Hx) as Hy.
  pose proof (preprocess_text_plain nfc decimal_table alnum_table self x) as Hplain.
  destruct (preprocess_text_shape nfc decimal_table alnum_table self x)
    as (K & HK & Hkeep & E).
  rewrite E in *. unfold preprocess_text, normalize_unicode.
  rewrite (Hnfc _ Hy).
  rewrite (remove_control_characters_fixed _ (plain_printable _ Hplain)).
  rewrite (fix_common_encoding_issues_fixed _ (ascii_no_artifact_letter _ Hy)).
  rewrite (clean_special_characters_fixed _ Hplain).
  now apply late_stages_fixed.
Qed.

End Whole.

Lemma preprocess_text_breaks_witness :
  let out := preprocess_text (fun s => s) (fun _ => false) (fun _ => false)
               default_config (lit "Fever: none.  Seen by Dr. Smith") in
  out = lit "Fever:" ++ NL :: lit "none." ++ NL :: lit "Seen by Dr." ++ NL :: lit "Smith"
  /\ exists u' p, lit "Fever:" = u' ++ [p] /\ is_sentence_end p = true.
Proof.
  intros out. split; [vm_compute; reflexivity|].
  apply (preprocess_text_breaks (fun s => s) (fun _ => false) (fun _ => false)
           default_config (lit "Fever: none.  Seen by Dr. Smith") (lit "Fever:")
           (lit "none." ++ NL :: lit "Seen by Dr." ++ NL :: lit "Smith")).
  vm_compute. reflexivity.
Defined.

Lemma preprocess_text_idempotent_on_ascii_witness :
  let pp := preprocess_text (fun s => s) (fun _ => false) (fun _ => false)
              default_config in
  let x := lit "Rash on day 2.  No fever; Dr. Lee agrees" in
  (forall s, forallb is_ascii s = true -> (fun s : str => s) s = s)
  /\ forallb is_ascii x = true
  /\ pp (pp x) = pp x.
Proof.
  intros pp x. split; [reflexivity|]. split; [reflexivity|].
  apply (preprocess_text_idempotent_on_ascii (fun s => s) (fun _ => false)
           (fun _ => false) default_config x); reflexivity.
Defined.

(** ** The report of [main] *)

Lemma split_segmented_paragraphs s : forall prev,
  chain R_segmented prev s = true -> split_from (repeat NL 2) 0 s = [s].
Proof.
  induction s as [|c s IH]; intros prev H; [reflexivity|].
  cbn [chain] in H. apply andb_true_iff in H as [Hc Hs].
  cbn [split_from]. rewrite (IH _ Hs).
  destruct (starts_with (repeat NL 2) (c :: s)) eqn:E; [exfalso|reflexivity].
  cbn [repeat starts_with] in E. apply andb_true_iff in E as [Ec E].
  destruct s as [|d s]; [discriminate|]. apply andb_true_iff in E as [Ed _].
  apply N.eqb_eq in Ec, Ed. subst c d.
  cbn [chain] in Hs. apply andb_true_iff in Hs as [Hd _]. discriminate.
Qed.

(** X25: the "Total paragraphs" that [main] reports for a preprocessed text
    is 1, or 0 when the text is empty: the output has no blank line to
    split at. *)
Theorem total_paragraphs_at_most_one nfc decimal_table alnum_table self x :
  total_paragraphs (preprocess_text nfc decimal_table alnum_table self x)
  = if nonempty (preprocess_text nfc decimal_table alnum_table self x)
    then 1%nat else 0%nat.
Proof.
  pose proof (preprocess_text_segmented nfc decimal_table alnum_table self x) as H.
  set (y := preprocess_text nfc decimal_table alnum_table self x) in *. clearbody y.
  unfold total_paragraphs, str_split.
  pose proof H as Hs. unfold segmented in Hs. apply andb_true_iff in Hs as [Hs _].
  rewrite (split_segmented_paragraphs y None Hs). cbn [filter].
  rewrite (segmented_strip y H). now destruct y.
Qed.

(** ** The statistics *)

Lemma filter_partition_length (p : N -> bool) s :
  length s = (length (filter p s) + length (filter (fun c => negb (p c)) s))%nat.
Proof.
  induction s as [|c s IH]; [reflexivity|]. cbn [filter length].
  destruct (p c); cbn [negb length]; lia.
Qed.

Lemma split_nl_newline_count s :
  length (split_nl s) = S (length (filter is_nl s)).
Proof.
  induction s as [|c s IH]; [reflexivity|]. cbn [split_nl filter]. unfold is_nl at 1.
  destruct (c =? NL); cbn [length]; [now rewrite IH|].
  destruct (split_nl s) as [|l ls]; [discriminate|]. cbn [length] in *. exact IH.
Qed.

(** X26: the "Control characters removed" that Step 3 reports is the
    number of characters of the input that are in the class, and the step
    removes no line: its "Lines removed" is 0. *)
Theorem control_chars_removed_counts text :
  control_chars_removed text = Z.of_nat (length (filter is_control text))
  /\ line_diff text (remove_control_characters text) = 0%Z.
Proof.
  unfold control_chars_removed, line_diff.
  rewrite remove_control_characters_filter. split.
  - rewrite (filter_partition_length is_control text) at 1.
    unfold printable. lia.
  - rewrite !split_nl_newline_count.
    assert (H : filter is_nl (filter printable text) = filter is_nl text).
    { induction text as [|c t IH]; [reflexivity|]. cbn [filter].
      destruct (printable c) eqn:Ep; cbn [filter]; rewrite IH; [reflexivity|].
      replace (is_nl c) with false; [reflexivity|].
      symmetry. unfold printable in Ep. apply negb_false_iff in Ep. char_bool. }
    rewrite H. lia.
Qed.

(** X27: the two numbers that Step 6 reports agree when a line is kept:
    "Empty/short lines removed" equals "Lines removed".  When no line is
    kept they differ by one, as the empty result still counts as one line. *)
Theorem empty_lines_removed_and_line_diff self text :
  empty_lines_removed self text
  = (line_diff text (remove_empty_lines self text)
     + match filter (keep_line self) (split_nl text) with [] => 1 | _ :: _ => 0 end)%Z.
Proof.
  unfold empty_lines_removed, line_diff, remove_empty_lines.
  pose proof (kept_lines_no_nl (keep_line self) text) as Hnl.
  destruct (filter (keep_line self) (split_nl text)) as [|l K] eqn:E.
  - cbn [join_nl split_nl length]. lia.
  - rewrite split_join by (discriminate || exact Hnl). lia.
Qed.
